(** * RegistrationFormModal: validation, submission and close behaviour

    A shallow embedding of [src/components/RegistrationFormModal.tsx].

    Conventions of the embedding.
    - A JavaScript string is the list of its UTF-16 code units ([list N]);
      [str] turns an ASCII literal of the source into such a list.
    - [formData], [errors], [newErrors] and [responses] are plain objects
      created by [{}] or by an object literal with a spread.  Such an object is
      the finite map of its own properties ([gmap (list N) T]) together with
      what it inherits: a read [o[k]] of a key that is no own property falls
      through to [Object.prototype] ([get]), and an assignment [o[k] = v] goes
      through the setter of [__proto__] when [k] is that name ([assignText],
      [put]).  A computed key of an object literal always makes an own
      property, so the spreads of [handleFieldChange] are plain inserts.
    - React state is one record; every handler is a function from the state of
      the render it closes over to the next state, together with the list of
      outward calls (the insert on the store, the [onClose] callback) it makes.
      The [await] in [handleSubmit] splits it into the part before the call and
      the part that runs when the call settles.  An exception is an explicit
      outcome: [None] for a handler or a row that throws, [Crash] for a render
      that throws. *)

From stdpp Require Import gmap list strings.
From Stdlib Require Import Ascii Permutation.

Local Open Scope N_scope.

(** ** Strings, values and plain objects *)

Module Js.

Fixpoint str (s : string) : list N :=
  match s with
  | EmptyString => []
  | String a rest => N_of_ascii a :: str rest
  end.

(** The values a draft entry can hold: a string (text, select, radio) or an
    array of strings (checkbox group).  [undefined] is the absence of the
    key, so an own entry of [formData] is an [option value]. *)
Inductive value :=
| VStr (s : list N)
| VArr (items : list (list N)).

#[global] Instance value_eq_dec : EqDecision value.
Proof. solve_decision. Defined.

(** Truthiness of an own entry: [undefined] and [''] are falsy, every other
    string and every array (the empty one included) is truthy. *)
Definition truthy (v : option value) : bool :=
  match v with
  | None => false
  | Some (VStr []) => false
  | Some (VStr (_ :: _)) => true
  | Some (VArr _) => true
  end.

(** [Array.prototype.join] with separator [sep]. *)
Fixpoint join (sep : list N) (items : list (list N)) : list N :=
  match items with
  | [] => []
  | [x] => x
  | x :: rest => x ++ sep ++ join sep rest
  end.

(** [String(v)] for an own entry. *)
Definition toString (v : option value) : list N :=
  match v with
  | None => str "undefined"
  | Some (VStr s) => s
  | Some (VArr items) => join (str ",") items
  end.

(** Truthiness of an optional string property. *)
Definition truthy_str (v : option (list N)) : bool :=
  match v with
  | None => false
  | Some [] => false
  | Some (_ :: _) => true
  end.

(** [p || null] for an optional string property. *)
Definition orNull (p : option (list N)) : option (list N) :=
  if truthy_str p then p else None.

(** *** What a plain object inherits *)

(** The property names of [Object.prototype].  All are functions but
    [__proto__], an accessor whose getter gives [Object.prototype] itself. *)
Definition memberNames : list (list N) :=
  [ str "constructor"; str "__defineGetter__"; str "__defineSetter__";
    str "hasOwnProperty"; str "__lookupGetter__"; str "__lookupSetter__";
    str "isPrototypeOf"; str "propertyIsEnumerable"; str "toString";
    str "valueOf"; str "__proto__"; str "toLocaleString" ].

(** The result of a read [o[k]]: an own property, the member of
    [Object.prototype] of that name, or [undefined]. *)
Inductive got (A : Type) :=
| Own (a : A)
| Member (name : list N)
| Missing.

#[global] Arguments Own {A} a.
#[global] Arguments Member {A} name.
#[global] Arguments Missing {A}.

Definition get {A} (o : gmap (list N) A) (k : list N) : got A :=
  match o !! k with
  | Some a => Own a
  | None => if bool_decide (k ∈ memberNames) then Member k else Missing
  end.

(** Whether a read gave the one member that is an object, not a function. *)
Definition isObjectMember {A} (g : got A) : bool :=
  match g with
  | Member name => bool_decide (name = str "__proto__")
  | _ => false
  end.

(** Truthiness of [formData[k]]: a function or an object is truthy. *)
Definition truthyGot (g : got value) : bool :=
  match g with
  | Own v => truthy (Some v)
  | Member _ => true
  | Missing => false
  end.

(** Truthiness of [errors[k]]. *)
Definition truthyText (g : got (list N)) : bool :=
  match g with
  | Own [] => false
  | Own (_ :: _) => true
  | Member _ => true
  | Missing => false
  end.

(** [String(m)] for a member of [Object.prototype]: ["[object Object]"] for
    the prototype itself, the source text of a built-in function otherwise
    (engines differ in the white space they print in it, not in its
    presence). *)
Definition memberText (name : list N) : list N :=
  if bool_decide (name = str "__proto__") then str "[object Object]"
  else
    str "function "
    ++ (if bool_decide (name = str "constructor") then str "Object" else name)
    ++ str "() { [native code] }".

(** The string a regular expression sees when [test] is given [o[k]]. *)
Definition toStringGot (g : got value) : list N :=
  match g with
  | Own v => toString (Some v)
  | Member name => memberText name
  | Missing => str "undefined"
  end.

(** [o[k] = text] on an object whose prototype is [Object.prototype]: the
    setter of [__proto__] ignores a string, every other key becomes (or
    stays) an own property. *)
Definition assignText
    (o : gmap (list N) (list N)) (k text : list N) : gmap (list N) (list N) :=
  if bool_decide (k = str "__proto__") then o else <[k := text]> o.

(** *** The object built for the insert *)

(** A value of [responses]: an entered value or the empty string, or the
    member of [Object.prototype] that [formData[field.id]] fell through to. *)
Inductive stored :=
| Entered (v : value)
| Borrowed (name : list N).

#[global] Instance stored_eq_dec : EqDecision stored.
Proof. solve_decision. Defined.

(** [formData[field.id] || ''] *)
Definition orEmpty (g : got value) : stored :=
  match g with
  | Own v => if truthy (Some v) then Entered v else Entered (VStr [])
  | Member name => Borrowed name
  | Missing => Entered (VStr [])
  end.

(** What the prototype of [responses] can become through the setter of
    [__proto__]: it starts as [Object.prototype], and an array or a function
    assigned to [__proto__] takes its place. *)
Inductive proto :=
| ObjectProto
| ArrayProto
| FunctionProto (name : list N).

Definition asProto (x : stored) : option proto :=
  match x with
  | Entered (VStr _) => None
  | Entered (VArr _) => Some ArrayProto
  | Borrowed name =>
      Some (if bool_decide (name = str "__proto__") then ObjectProto
            else FunctionProto name)
  end.

(** The keys an object cannot be assigned when it inherits from a built-in
    function: [name] and [length] (and [prototype] of the constructor
    [Object]) are read-only data properties, [caller] and [arguments] are
    accessors of [Function.prototype] that throw.  Module code is strict, so
    the failed assignment is a [TypeError]. *)
Definition refuses (p : proto) (k : list N) : bool :=
  match p with
  | FunctionProto f =>
      bool_decide (k ∈ [str "name"; str "length"; str "caller"; str "arguments"])
      || bool_decide (f = str "constructor") && bool_decide (k = str "prototype")
  | _ => false
  end.

Record object := {
  own : gmap (list N) stored;
  prototype : proto
}.

Definition emptyObject : object := {| own := ∅; prototype := ObjectProto |}.

(** [o[k] = x]; [None] when the assignment throws. *)
Definition put (o : object) (k : list N) (x : stored) : option object :=
  if bool_decide (k = str "__proto__") then
    Some match asProto x with
         | Some p => {| own := own o; prototype := p |}
         | None => o
         end
  else if bool_decide (is_Some (own o !! k)) then
    Some {| own := <[k := x]> (own o); prototype := prototype o |}
  else if refuses (prototype o) k then None
  else Some {| own := <[k := x]> (own o); prototype := prototype o |}.

(** *** Strings where a list was expected *)

Fixpoint isPrefix (p s : list N) : bool :=
  match p, s with
  | [], _ => true
  | _ :: _, [] => false
  | a :: p1, b :: s1 => (a =? b) && isPrefix p1 s1
  end.

(** [s.includes(p)] *)
Fixpoint isInfix (p s : list N) : bool :=
  isPrefix p s
  || match s with
     | [] => false
     | _ :: s1 => isInfix p s1
     end.

Definition isHigh (c : N) : bool := (55296 <=? c) && (c <=? 56319).
Definition isLow (c : N) : bool := (56320 <=? c) && (c <=? 57343).

(** [[...s]]: the string iterator yields code points, a surrogate pair as
    one string of two code units. *)
Fixpoint codePoints (s : list N) : list (list N) :=
  match s with
  | [] => []
  | c :: rest =>
      match rest with
      | d :: rest1 =>
          if isHigh c && isLow d then [c; d] :: codePoints rest1
          else [c] :: codePoints rest
      | [] => [[c]]
      end
  end.

End Js.

(** ** Regular expressions *)

Module Regex.

(** [\s]: WhiteSpace and LineTerminator code units. *)
Definition is_space (c : N) : bool :=
  (9 <=? c) && (c <=? 13)
  || (c =? 32) || (c =? 160) || (c =? 5760)
  || (8192 <=? c) && (c <=? 8202)
  || (c =? 8232) || (c =? 8233) || (c =? 8239) || (c =? 8287)
  || (c =? 12288) || (c =? 65279).

(** [\d] *)
Definition is_digit (c : N) : bool := (48 <=? c) && (c <=? 57).

Inductive class_item :=
| CChar (c : N)
| CDigit
| CSpace.

Definition item_mem (c : N) (i : class_item) : bool :=
  match i with
  | CChar d => c =? d
  | CDigit => is_digit c
  | CSpace => is_space c
  end.

(** [[...]] and [[^...]] *)
Definition class_mem (negated : bool) (items : list class_item) (c : N) : bool :=
  xorb negated (existsb (item_mem c) items).

Inductive regex :=
| RNone
| REps
| RChr (c : N)
| RSet (negated : bool) (items : list class_item)
| RCat (r1 r2 : regex)
| RAlt (r1 r2 : regex)
| RStar (r : regex).

(** [r+] *)
Definition RPlus (r : regex) : regex := RCat r (RStar r).

Fixpoint nullable (r : regex) : bool :=
  match r with
  | RNone => false
  | REps => true
  | RChr _ => false
  | RSet _ _ => false
  | RCat r1 r2 => nullable r1 && nullable r2
  | RAlt r1 r2 => nullable r1 || nullable r2
  | RStar _ => true
  end.

Fixpoint deriv (c : N) (r : regex) : regex :=
  match r with
  | RNone => RNone
  | REps => RNone
  | RChr d => if c =? d then REps else RNone
  | RSet neg items => if class_mem neg items c then REps else RNone
  | RCat r1 r2 =>
      if nullable r1
      then RAlt (RCat (deriv c r1) r2) (deriv c r2)
      else RCat (deriv c r1) r2
  | RAlt r1 r2 => RAlt (deriv c r1) (deriv c r2)
  | RStar r1 => RCat (deriv c r1) (RStar r1)
  end.

(** [/^r$/.test(s)]: the pattern is anchored at both ends, there is no [m]
    flag, so the whole input has to match [r]. *)
Fixpoint test (r : regex) (s : list N) : bool :=
  match s with
  | [] => nullable r
  | c :: rest => test (deriv c r) rest
  end.

(** The language of a regular expression. *)
Inductive matches : regex → list N → Prop :=
| MEps : matches REps []
| MChr c : matches (RChr c) [c]
| MSet neg items c : class_mem neg items c = true → matches (RSet neg items) [c]
| MCat r1 r2 s1 s2 : matches r1 s1 → matches r2 s2 → matches (RCat r1 r2) (s1 ++ s2)
| MAltL r1 r2 s : matches r1 s → matches (RAlt r1 r2) s
| MAltR r1 r2 s : matches r2 s → matches (RAlt r1 r2) s
| MStarNil r : matches (RStar r) []
| MStarApp r s1 s2 : matches r s1 → matches (RStar r) s2 → matches (RStar r) (s1 ++ s2).

End Regex.

(** ** Data model *)

Module FormField.
Record t := mk {
  id : list N;
  label : list N;
  field_type : list N;
  placeholder : list N;
  options : list (list N);
  is_required : bool;
  sort_order : Z
}.

#[global] Instance eq_dec : EqDecision t.
Proof. solve_decision. Defined.
End FormField.

Module RegistrationForm.
Record t := mk {
  id : list N;
  name : list N;
  description : list N;
  success_message : list N
}.
End RegistrationForm.

(** ** The component *)

Module Modal.
Import Js Regex.

Record props := {
  formId : list N;
  programId : option (list N);
  courseId : option (list N)
}.

Record state := {
  form : option RegistrationForm.t;
  fields : list FormField.t;
  formData : gmap (list N) value;
  isSubmitting : bool;
  isSuccess : bool;
  errors : gmap (list N) (list N)
}.

(** The [useState] initial values. *)
Definition initial : state :=
  {| form := None; fields := []; formData := ∅;
     isSubmitting := false; isSuccess := false; errors := ∅ |}.

Definition setForm (x : option RegistrationForm.t) (s : state) : state :=
  {| form := x; fields := fields s; formData := formData s;
     isSubmitting := isSubmitting s; isSuccess := isSuccess s; errors := errors s |}.

Definition setFields (x : list FormField.t) (s : state) : state :=
  {| form := form s; fields := x; formData := formData s;
     isSubmitting := isSubmitting s; isSuccess := isSuccess s; errors := errors s |}.

Definition setFormData (x : gmap (list N) value) (s : state) : state :=
  {| form := form s; fields := fields s; formData := x;
     isSubmitting := isSubmitting s; isSuccess := isSuccess s; errors := errors s |}.

Definition setIsSubmitting (x : bool) (s : state) : state :=
  {| form := form s; fields := fields s; formData := formData s;
     isSubmitting := x; isSuccess := isSuccess s; errors := errors s |}.

Definition setIsSuccess (x : bool) (s : state) : state :=
  {| form := form s; fields := fields s; formData := formData s;
     isSubmitting := isSubmitting s; isSuccess := x; errors := errors s |}.

Definition setErrors (x : gmap (list N) (list N)) (s : state) : state :=
  {| form := form s; fields := fields s; formData := formData s;
     isSubmitting := isSubmitting s; isSuccess := isSuccess s; errors := x |}.

(** The row handed to [supabase.from('form_submissions').insert];
    [responses] is given by the own properties of the object built for it. *)
Record submission := {
  form_id : list N;
  program_id : option (list N);
  course_id : option (list N);
  responses : gmap (list N) stored
}.

(** Calls that leave the component. *)
Inductive call :=
| SelectForm (formId : list N)
| SelectFields (formId : list N)
| Insert (row : submission)
| OnClose.

(** [useEffect(() => { loadForm(); }, [formId])]: the two reads are issued
    together; the state is touched only when both have settled. *)
Definition loadForm (p : props) (s : state) : state * list call :=
  (s, [SelectForm (formId p); SelectFields (formId p)]).

Definition loadFormSettled
    (formRes : option RegistrationForm.t) (fieldsRes : option (list FormField.t))
    (s : state) : state :=
  let s1 := match formRes with Some f => setForm (Some f) s | None => s end in
  match fieldsRes with Some fs => setFields fs s1 | None => s1 end.

(** [/^[^\s@]+@[^\s@]+\.[^\s@]+$/]  (64 is [@], 46 is [.]) *)
Definition emailRegex : regex :=
  RCat (RPlus (RSet true [CSpace; CChar 64]))
    (RCat (RChr 64)
       (RCat (RPlus (RSet true [CSpace; CChar 64]))
          (RCat (RChr 46)
             (RPlus (RSet true [CSpace; CChar 64]))))).

(** [/^[\d\s\-\+\(\)]+$/]  (45 [-], 43 [+], 40 [(], 41 [)]) *)
Definition phoneRegex : regex :=
  RPlus (RSet false [CDigit; CSpace; CChar 45; CChar 43; CChar 40; CChar 41]).

Definition requiredMessage (field : FormField.t) : list N :=
  FormField.label field ++ str " is required".

Definition emailMessage : list N := str "Please enter a valid email address".

Definition phoneMessage : list N := str "Please enter a valid phone number".

(** The body of the [fields.forEach] of [validateForm], acting on the
    [newErrors] object built so far. *)
Definition validateField
    (formData : gmap (list N) value) (newErrors : gmap (list N) (list N))
    (field : FormField.t) : gmap (list N) (list N) :=
  let v := get formData (FormField.id field) in
  let e1 :=
    if FormField.is_required field && negb (truthyGot v)
    then assignText newErrors (FormField.id field) (requiredMessage field)
    else newErrors in
  let e2 :=
    if bool_decide (FormField.field_type field = str "email") && truthyGot v
    then
      if negb (test emailRegex (toStringGot v))
      then assignText e1 (FormField.id field) emailMessage
      else e1
    else e1 in
  if bool_decide (FormField.field_type field = str "phone") && truthyGot v
  then
    if negb (test phoneRegex (toStringGot v))
    then assignText e2 (FormField.id field) phoneMessage
    else e2
  else e2.

Definition newErrorsOf
    (fields : list FormField.t) (formData : gmap (list N) value)
    : gmap (list N) (list N) :=
  foldl (validateField formData) ∅ fields.

Definition validateForm (s : state) : state * bool :=
  let newErrors := newErrorsOf (fields s) (formData s) in
  (setErrors newErrors s, bool_decide (size newErrors = 0%nat)).

(** The [responses] object of [handleSubmit], one assignment per field;
    [None] when an assignment throws. *)
Definition responsesOf
    (fields : list FormField.t) (formData : gmap (list N) value)
    : option object :=
  foldl
    (λ responses field,
       responses ≫= λ o,
         put o (FormField.label field)
           (orEmpty (get formData (FormField.id field))))
    (Some emptyObject) fields.

(** [handleSubmit] up to its [await].  When building [responses] throws, the
    promise of the handler is rejected after [setIsSubmitting(true)] and
    before the insert. *)
Definition handleSubmit (p : props) (s : state) : state * list call :=
  let '(s1, ok) := validateForm s in
  if negb ok then (s1, [])
  else
    match responsesOf (fields s) (formData s) with
    | Some o =>
        (setIsSubmitting true s1,
         [Insert {| form_id := formId p;
                    program_id := orNull (programId p);
                    course_id := orNull (courseId p);
                    responses := own o |}])
    | None => (setIsSubmitting true s1, [])
    end.

(** [handleSubmit] after its [await]; [error] is the [error] property of the
    settled insert ([None] for [null]). *)
Definition insertSettled (error : option (list N)) (s : state) : state :=
  let s1 := setIsSubmitting false s in
  match error with
  | None => setIsSuccess true s1
  | Some _ => s1
  end.

Definition handleFieldChange (fieldId : list N) (v : value) (s : state) : state :=
  let s1 := setFormData (<[fieldId := v]> (formData s)) s in
  if truthyText (get (errors s) fieldId)
  then setErrors (<[fieldId := []]> (errors s)) s1
  else s1.

(** A run of field changes, one [handleFieldChange] per edit. *)
Definition changes (edits : list (list N * value)) (s : state) : state :=
  foldl (λ st e, handleFieldChange e.1 e.2 st) s edits.

(** *** Event handlers of the rendered controls *)

(** [onChange] of the textarea, the select and the default input. *)
Definition textChange (field : FormField.t) (text : list N) (s : state) : state :=
  handleFieldChange (FormField.id field) (VStr text) s.

(** [onChange] of a radio button. *)
Definition radioChange (field : FormField.t) (opt : list N) (s : state) : state :=
  handleFieldChange (FormField.id field) (VStr opt) s.

(** [formData[field.id] || []] as the checkbox group uses it: a list, a
    non-empty string, or a member of [Object.prototype], which is neither
    iterable nor has [includes] or [filter]. *)
Inductive current :=
| Items (items : list (list N))
| Text (s : list N)
| NotAList.

Definition currentOf (g : got value) : current :=
  match g with
  | Own (VArr items) => Items items
  | Own (VStr []) => Items []
  | Own (VStr (c :: s)) => Text (c :: s)
  | Member _ => NotAList
  | Missing => Items []
  end.

(** [current.includes(option)]; [None] for the [TypeError]. *)
Definition includes (c : current) (opt : list N) : option bool :=
  match c with
  | Items items => Some (bool_decide (opt ∈ items))
  | Text s => Some (isInfix opt s)
  | NotAList => None
  end.

(** [onChange] of one checkbox of a group; [None] when the spread or the
    [filter] throws, which leaves the state as it is. *)
Definition checkboxChange
    (field : FormField.t) (opt : list N) (checked : bool) (s : state)
    : option state :=
  match currentOf (get (formData s) (FormField.id field)) with
  | Items items =>
      let updated :=
        if checked then items ++ [opt]
        else filter (λ v, v ≠ opt) items in
      Some (handleFieldChange (FormField.id field) (VArr updated) s)
  | Text text =>
      if checked
      then Some (handleFieldChange (FormField.id field)
                   (VArr (codePoints text ++ [opt])) s)
      else None
  | NotAList => None
  end.

(** *** The rendered view *)

(** The [switch] of [renderField]. *)
Inductive control :=
| Textarea
| Select
| Checkbox
| Radio
| Input (type : list N).

Definition renderField (field : FormField.t) : control :=
  let t := FormField.field_type field in
  if bool_decide (t = str "textarea") then Textarea
  else if bool_decide (t = str "select") then Select
  else if bool_decide (t = str "checkbox") then Checkbox
  else if bool_decide (t = str "radio") then Radio
  else Input t.

(** One [<div key={field.id}>] of the form body: the label, the required
    mark, the control, for a checkbox group its boxes with their [checked]
    attribute, and the error line. *)
Record row := {
  row_label : list N;
  row_required : bool;
  row_control : control;
  row_boxes : list (list N * bool);
  row_error : option (list N)
}.

(** [errors[field.id] && <p>{errors[field.id]}</p>]: whether the paragraph
    is there, and its text.  A function as the child of the paragraph renders
    no text; the one member that is an object makes the row throw, see
    [renderRow]. *)
Definition errorLine (errors : gmap (list N) (list N)) (fieldId : list N)
    : option (list N) :=
  match get errors fieldId with
  | Own [] => None
  | Own (c :: m) => Some (c :: m)
  | Member _ => Some []
  | Missing => None
  end.

(** The boxes of a checkbox group, [field.options.map(...)] with
    [checked={(formData[field.id] || []).includes(option)}]. *)
Definition renderBoxes (s : state) (field : FormField.t)
    : option (list (list N * bool)) :=
  mapM
    (λ opt,
       (λ c, (opt, c))
         <$> includes (currentOf (get (formData s) (FormField.id field))) opt)
    (FormField.options field).

(** One row; [None] when rendering it throws: [includes] called on a member
    of [Object.prototype], or the prototype object itself as the child of the
    error paragraph. *)
Definition renderRow (s : state) (field : FormField.t) : option row :=
  boxes ← match renderField field with
          | Checkbox => renderBoxes s field
          | _ => Some []
          end;
  if isObjectMember (get (errors s) (FormField.id field))
  then None
  else
    Some {| row_label := FormField.label field;
            row_required := FormField.is_required field;
            row_control := renderField field;
            row_boxes := boxes;
            row_error := errorLine (errors s) (FormField.id field) |}.

(** What the component returns: [null], the success panel, or the form;
    [Crash] when rendering throws.  Of the markup the view keeps what can be
    acted on or read: the title, one row per field, the state of the submit
    button and the buttons that close; class names, the description
    paragraph and the values shown in the text controls are left out. *)
Inductive view :=
| Nothing
| SuccessPanel (message : list N)
| FormPanel (name : list N) (rows : list row)
    (submit_disabled : bool) (submit_label : list N)
| Crash.

Definition render (s : state) : view :=
  match form s with
  | Some f =>
      if isSuccess s then SuccessPanel (RegistrationForm.success_message f)
      else
        match mapM (renderRow s) (fields s) with
        | Some rows =>
            FormPanel (RegistrationForm.name f) rows (isSubmitting s)
              (if isSubmitting s then str "Submitting..." else str "Submit")
        | None => Crash
        end
  | None => Nothing
  end.

(** The buttons whose [onClick] is [onClose]. *)
Inductive close_button :=
| HeaderX
| Cancel
| SuccessClose.

Definition closeButtons (v : view) : list close_button :=
  match v with
  | Nothing => []
  | SuccessPanel _ => [SuccessClose]
  | FormPanel _ _ _ _ => [HeaderX; Cancel]
  | Crash => []
  end.

(** [onClick={onClose}]: the component state is not touched. *)
Definition clickClose (s : state) : state * list call := (s, [OnClose]).

(** *** The component as a transition system *)

Inductive event :=
| EvLoaded (formRes : option RegistrationForm.t)
    (fieldsRes : option (list FormField.t))
| EvChange (fieldId : list N) (v : value)
| EvSubmit
| EvInsertSettled (error : option (list N))
| EvClose.

Definition step (p : props) (s : state) (e : event) : state * list call :=
  match e with
  | EvLoaded formRes fieldsRes => (loadFormSettled formRes fieldsRes s, [])
  | EvChange fieldId v => (handleFieldChange fieldId v s, [])
  | EvSubmit => handleSubmit p s
  | EvInsertSettled error => (insertSettled error s, [])
  | EvClose => clickClose s
  end.

Definition isInsert (c : call) : bool :=
  match c with
  | Insert _ => true
  | _ => false
  end.

End Modal.

(** ** The host page *)

Module Host.
Import Modal.

(** Modelled from the spec: the page that mounts the modal and supplies its
    [onClose] callback is not among the sources.  The spec has the draft
    "discarded on successful submit or modal close", so the callback unmounts
    the modal, and with it the component state.  [inserts] is the log of
    insert calls that reached the store. *)
Record host := {
  mounted : option state;
  inserts : list submission
}.

Definition perform (h : host) (c : call) : host :=
  match c with
  | SelectForm _ => h
  | SelectFields _ => h
  | Insert row => {| mounted := mounted h; inserts := inserts h ++ [row] |}
  | OnClose => {| mounted := None; inserts := inserts h |}
  end.

(** One event on the mounted modal, its calls carried out in order. *)
Definition dispatch (p : props) (h : host) (e : event) : host :=
  match mounted h with
  | None => h
  | Some s =>
      let '(s1, calls) := step p s e in
      foldl perform {| mounted := Some s1; inserts := inserts h |} calls
  end.

End Host.

(** ** The rules as the specification words them *)

Module Rules.
Import Js Regex Modal.

(** A key that is not the name of a member of [Object.prototype]. *)
Definition plainKey (k : list N) : Prop := k ∉ memberNames.

(** A character that may occur in the local part, the domain and the
    top-level part: anything but white space and [@]. *)
Definition partChar (c : N) : bool := negb (is_space c) && negb (c =? 64).

Definition part (s : list N) : Prop :=
  s ≠ [] ∧ Forall (λ c, partChar c = true) s.

(** "a simple [local@domain.tld]-shaped pattern" *)
Definition emailShaped (s : list N) : Prop :=
  ∃ loc dom tld, s = loc ++ [64] ++ dom ++ [46] ++ tld ∧ part loc ∧ part dom ∧ part tld.

(** "digits, spaces, [-], [+], [(], [)]", with the space character (32) read
    literally as in the class [[0-9 \-+()]]. *)
Definition phoneCharLiteral (c : N) : bool :=
  is_digit c || (c =? 32) || (c =? 45) || (c =? 43) || (c =? 40) || (c =? 41).

(** The same with every white-space character of [\s] in place of the space. *)
Definition phoneChar (c : N) : bool :=
  is_digit c || is_space c || (c =? 45) || (c =? 43) || (c =? 40) || (c =? 41).

(** The error one field earns from its definition and from what
    [formData[field.id]] gives: rule 3, else rule 2, else rule 1, else none. *)
Definition fieldError (field : FormField.t) (v : got value) : option (list N) :=
  if bool_decide (FormField.field_type field = str "phone") && truthyGot v
     && negb (test phoneRegex (toStringGot v))
  then Some phoneMessage
  else if bool_decide (FormField.field_type field = str "email") && truthyGot v
          && negb (test emailRegex (toStringGot v))
  then Some emailMessage
  else if FormField.is_required field && negb (truthyGot v)
  then Some (requiredMessage field)
  else None.

(** What [formData[k]] gives, from the own entry of [k] alone. *)
Definition readOf (k : list N) (entry : option value) : got value :=
  match entry with
  | Some v => Own v
  | None => if bool_decide (k ∈ memberNames) then Member k else Missing
  end.

(** The error one field leaves in the error set, from its definition and
    its own draft entry: the error it earns, unless its identity is
    [__proto__], under which nothing can be recorded. *)
Definition fieldOutcome (field : FormField.t) (entry : option value)
    : option (list N) :=
  if bool_decide (FormField.id field = str "__proto__") then None
  else fieldError field (readOf (FormField.id field) entry).

(** The value recorded under a label when several fields may carry it: that
    of the last field in display order with this label. *)
Definition lastWithLabel (fields : list FormField.t) (l : list N)
    : option FormField.t :=
  last (filter (λ f, FormField.label f = l) fields).

End Rules.

(** ** A form to run the component on *)

Module Sample.
Import Js Modal.

Definition nameField : FormField.t :=
  FormField.mk (str "fld-name") (str "Name") (str "text")
    (str "Your name") [] true 1%Z.

Definition emailField : FormField.t :=
  FormField.mk (str "fld-email") (str "Email") (str "email")
    (str "you@example.com") [] false 2%Z.

Definition phoneField : FormField.t :=
  FormField.mk (str "fld-phone") (str "Phone") (str "phone")
    (str "Mobile number") [] false 3%Z.

(** A second field that an editor has also labelled "Phone". *)
Definition otherPhoneField : FormField.t :=
  FormField.mk (str "fld-phone-2") (str "Phone") (str "text")
    (str "Landline") [] false 4%Z.

Definition sessionsField : FormField.t :=
  FormField.mk (str "fld-sessions") (str "Sessions") (str "checkbox")
    [] [str "Morning"; str "Evening"] true 5%Z.

(** A free-text field that carries the label of the checkbox group too. *)
Definition otherSessionsField : FormField.t :=
  FormField.mk (str "fld-sessions-2") (str "Sessions") (str "text")
    (str "Other times") [] false 6%Z.

Definition retreat : RegistrationForm.t :=
  RegistrationForm.mk (str "form-1") (str "Retreat registration") []
    (str "Thank you for registering!").

Definition modalProps : props :=
  {| formId := str "form-1"; programId := None; courseId := Some (str "course-7") |}.

(** The state once [retreat] and the fields [fs] are loaded, the draft being
    [fd] and the error set [es]. *)
Definition ready
    (fs : list FormField.t) (fd : gmap (list N) value)
    (es : gmap (list N) (list N)) : state :=
  {| form := Some retreat; fields := fs; formData := fd;
     isSubmitting := false; isSuccess := false; errors := es |}.

(** The row inserted for [modalProps] when the record holds the entered
    values [fd]. *)
Definition rowFor (fd : gmap (list N) value) : submission :=
  {| form_id := str "form-1"; program_id := None;
     course_id := Some (str "course-7"); responses := Entered <$> fd |}.

(** Horizontal tab, a white-space character other than the space. *)
Definition tab : N := 9.

Definition tabbedNumber : list N := str "98765" ++ [tab] ++ str "43210".

(** "Name" and "Email" filled in as in the last scenario of the spec. *)
Definition adaReady : state :=
  ready [nameField; emailField]
    {[ str "fld-name" := VStr (str "Ada");
       str "fld-email" := VStr (str "ada@example.com") ]} ∅.

Definition adaRow : submission :=
  rowFor {[ str "Name" := VStr (str "Ada");
            str "Email" := VStr (str "ada@example.com") ]}.

(** A submit attempt with nothing entered has left its errors behind. *)
Definition nameMissing : state :=
  ready [nameField; emailField] ∅
    {[ str "fld-name" := str "Name is required" ]}.

Definition phoneReady (number : list N) : state :=
  ready [nameField; phoneField]
    {[ str "fld-name" := VStr (str "Ada"); str "fld-phone" := VStr number ]} ∅.

(** Two fields labelled "Phone"; only the second one is filled in. *)
Definition twoPhones : state :=
  ready [phoneField; otherPhoneField]
    {[ str "fld-phone-2" := VStr (str "12345") ]} ∅.

(** The checkbox group ticked and unticked, so that its entry is the empty
    list. *)
Definition emptySessions : state :=
  ready [nameField; sessionsField]
    {[ str "fld-name" := VStr (str "Ada"); str "fld-sessions" := VArr [] ]} ∅.

(** The same with a later text field that shares the label "Sessions". *)
Definition twoSessions : state :=
  ready [sessionsField; otherSessionsField]
    {[ str "fld-sessions" := VArr [];
       str "fld-sessions-2" := VStr (str "Noon") ]} ∅.

(** A required field whose identity is the name of a member of
    [Object.prototype]. *)
Definition ctorField : FormField.t :=
  FormField.mk (str "constructor") (str "Ctor") (str "text") [] [] true 7%Z.



(** A field labelled [__proto__] whose identity names the constructor
    member, followed by a field labelled [name]. *)
Definition protoLabelField : FormField.t :=
  FormField.mk (str "constructor") (str "__proto__") (str "text") [] [] false 9%Z.

Definition nameLabelField : FormField.t :=
  FormField.mk (str "fld-n") (str "name") (str "text") [] [] false 10%Z.

Definition throwing : state :=
  ready [protoLabelField; nameLabelField] ∅ ∅.

End Sample.

(** ** The rendered controls and the events they raise *)

Module Controls.
Import Js Modal.

(** What a user can do to the control of a field: type into a textarea or a
    single-line input, choose an entry of a dropdown (the placeholder entry
    has the value ['']), pick a radio button, click a checkbox. *)
Inductive input :=
| Typed (field : FormField.t) (text : list N)
| Chosen (field : FormField.t) (choice : list N)
| Picked (field : FormField.t) (opt : list N)
| Toggled (field : FormField.t) (opt : list N).

Definition inputField (u : input) : FormField.t :=
  match u with
  | Typed f _ => f
  | Chosen f _ => f
  | Picked f _ => f
  | Toggled f _ => f
  end.

(** Whether the view of [s] contains the control, and for the choice controls
    the entry, that [u] acts on: the form body is rendered (and rendering it
    did not throw), the field is one of [fields], and the [switch] of
    [renderField] gives it that control. *)
Definition offered (s : state) (u : input) : bool :=
  match render s with
  | FormPanel _ _ _ _ =>
      bool_decide (inputField u ∈ fields s)
      && match u, renderField (inputField u) with
         | Typed _ _, Textarea => true
         | Typed _ _, Input _ => true
         | Chosen f c, Select => bool_decide (c ∈ [] :: FormField.options f)
         | Picked f o, Radio => bool_decide (o ∈ FormField.options f)
         | Toggled f o, Checkbox => bool_decide (o ∈ FormField.options f)
         | _, _ => false
         end
  | _ => false
  end.

(** The [onChange] handler that [renderField] attaches to the control.  A
    click on a checkbox reports the opposite of the [checked] attribute it
    was rendered with. *)
Definition fire (u : input) (s : state) : option state :=
  match u with
  | Typed f text => Some (textChange f text s)
  | Chosen f c => Some (textChange f c s)
  | Picked f o => Some (radioChange f o s)
  | Toggled f o =>
      includes (currentOf (get (formData s) (FormField.id f))) o
        ≫= λ was, checkboxChange f o (negb was) s
  end.

(** A run of inputs, each on a control the view offers at that point. *)
Fixpoint inputs (us : list input) (s : state) : option state :=
  match us with
  | [] => Some s
  | u :: rest => if offered s u then fire u s ≫= inputs rest else None
  end.

(** The shape the draft entry of a field has when it was written by the
    control of that field: a string for every control but the checkbox group,
    a duplicate-free list of the group's options for the checkbox group. *)
Definition entryFits (f : FormField.t) (v : option value) : Prop :=
  match v with
  | None => True
  | Some (VStr _) => renderField f ≠ Checkbox
  | Some (VArr items) =>
      renderField f = Checkbox ∧ NoDup items
      ∧ ∀ o, o ∈ items → o ∈ FormField.options f
  end.

Definition draftFits (s : state) : Prop :=
  ∀ f, f ∈ fields s → entryFits f (formData s !! FormField.id f).

(** A run of events through the handlers, with the calls made on the way. *)
Fixpoint run (p : props) (s : state) (es : list event) : state * list call :=
  match es with
  | [] => (s, [])
  | e :: rest =>
      let '(s1, c1) := step p s e in
      let '(s2, c2) := run p s1 rest in
      (s2, c1 ++ c2)
  end.

Definition insertedRows (calls : list call) : list submission :=
  omap (λ c, match c with Insert row => Some row | _ => None end) calls.

Definition submits (es : list event) : nat :=
  length (List.filter (λ e, match e with EvSubmit => true | _ => false end) es).

(** The component together with the number of inserts that have been issued
    and have not settled yet. *)
Record session := {
  now : state;
  inflight : nat
}.

(** [disabled={isSubmitting}] on the submit button of the rendered form. *)
Definition submitEnabled (v : view) : bool :=
  match v with
  | FormPanel _ _ disabled _ => negb disabled
  | _ => false
  end.

(** The events that can occur: a submit needs the submit button of the form
    to be rendered and enabled, an insert can settle only if one is in
    flight. *)
Definition allowed (x : session) (e : event) : bool :=
  match e with
  | EvSubmit => submitEnabled (render (now x))
  | EvInsertSettled _ => bool_decide (0 < inflight x)%nat
  | _ => true
  end.

(** No field is labelled [__proto__], in the state and in what a load
    brings. *)
Definition labelsPlain (fs : list FormField.t) : Prop :=
  str "__proto__" ∉ map FormField.label fs.

Definition loadsPlain (e : event) : Prop :=
  match e with
  | EvLoaded _ (Some fs) => labelsPlain fs
  | _ => True
  end.

Definition advance (p : props) (x : session) (e : event) : option session :=
  if allowed x e then
    let '(s1, calls) := step p (now x) e in
    Some {| now := s1;
            inflight :=
              (inflight x + length (insertedRows calls)
               - match e with EvInsertSettled _ => 1 | _ => 0 end)%nat |}
  else None.

Fixpoint play (p : props) (x : session) (es : list event) : option session :=
  match es with
  | [] => Some x
  | e :: rest => advance p x e ≫= λ x1, play p x1 rest
  end.

End Controls.

(** ** Inputs and events to run the component on *)

Module Trial.
Import Js Modal Controls Sample.

(** The form as loaded, nothing entered yet. *)
Definition blankForm : state :=
  ready [nameField; emailField; phoneField; sessionsField] ∅ ∅.

(** The user types a name and an address, ticks both sessions and unticks
    the first again. *)
Definition fillIn : list input :=
  [ Typed nameField (str "Ada");
    Typed emailField (str "ada@example.com");
    Toggled sessionsField (str "Morning");
    Toggled sessionsField (str "Evening");
    Toggled sessionsField (str "Morning") ].

Definition filledIn : state :=
  ready [nameField; emailField; phoneField; sessionsField]
    {[ str "fld-name" := VStr (str "Ada");
       str "fld-email" := VStr (str "ada@example.com");
       str "fld-sessions" := VArr [str "Evening"] ]} ∅.

(** A draft that also holds an entry left over from another form. *)
Definition staleDraft : gmap (list N) value :=
  {[ str "fld-name" := VStr (str "Ada");
     str "fld-email" := VStr (str "ada@example.com");
     str "fld-old" := VStr (str "left over") ]}.

(** A required name made of two spaces and a no-break space. *)
Definition blankName : state :=
  ready [nameField; emailField]
    {[ str "fld-name" := VStr [32; 32; 160] ]} ∅.

(** The success panel is up. *)
Definition succeeded : state :=
  {| form := Some retreat; fields := [nameField; emailField];
     formData := formData adaReady;
     isSubmitting := false; isSuccess := true; errors := ∅ |}.

(** Events that try to get back to the form. *)
Definition afterwards : list event :=
  [ EvChange (str "fld-name") (VStr (str "Bob"));
    EvSubmit;
    EvInsertSettled (Some (str "timeout"));
    EvLoaded None None ].

(** A submit, edits while the insert is in flight, the insert failing, and a
    second submit. *)
Definition retry : list event :=
  [ EvSubmit;
    EvChange (str "fld-name") (VStr (str "Ada L."));
    EvInsertSettled (Some (str "timeout"));
    EvSubmit ].

Definition sessionsTicked : state :=
  ready [sessionsField]
    {[ str "fld-sessions" := VArr [str "Morning"; str "Evening"] ]} ∅.

(** A checkbox group whose identity names a member of [Object.prototype]. *)
Definition ctorSessions : FormField.t :=
  FormField.mk (str "constructor") (str "Sessions") (str "checkbox")
    [] [str "Morning"; str "Evening"] false 11%Z.

(** Fields labelled "Name" and [__proto__]: two labels, one key. *)
Definition protoNote : FormField.t :=
  FormField.mk (str "fld-note") (str "__proto__") (str "text") [] [] false 12%Z.

End Trial.

(** ** Regular expressions: the matcher decides the language *)

Section RegexFacts.
Import Regex.

Lemma matches_cat_inv r1 r2 s :
  matches (RCat r1 r2) s → ∃ s1 s2, s = s1 ++ s2 ∧ matches r1 s1 ∧ matches r2 s2.
Proof. intros H. inversion H; subst. eauto. Qed.

Lemma matches_alt_inv r1 r2 s :
  matches (RAlt r1 r2) s → matches r1 s ∨ matches r2 s.
Proof. intros H. inversion H; subst; auto. Qed.

Lemma matches_set_inv neg items s :
  matches (RSet neg items) s → ∃ c, s = [c] ∧ class_mem neg items c = true.
Proof. intros H. inversion H; subst. eauto. Qed.

Lemma matches_chr_inv d s : matches (RChr d) s → s = [d].
Proof. intros H. by inversion H. Qed.

Lemma matches_cat_cons r1 r2 c s1 s2 :
  matches r1 (c :: s1) → matches r2 s2 → matches (RCat r1 r2) (c :: s1 ++ s2).
Proof. intros H1 H2. apply (MCat r1 r2 (c :: s1) s2 H1 H2). Qed.

Lemma matches_cat_nil_l r1 r2 s :
  matches r1 [] → matches r2 s → matches (RCat r1 r2) s.
Proof. intros H1 H2. apply (MCat r1 r2 [] s H1 H2). Qed.

Lemma nullable_matches r : nullable r = true ↔ matches r [].
Proof.
  induction r as [| |d|neg items|r1 IH1 r2 IH2|r1 IH1 r2 IH2|r IH]; simpl.
  - split; [discriminate|]. intros H. inversion H.
  - split; [constructor|done].
  - split; [discriminate|]. intros H. inversion H.
  - split; [discriminate|]. intros H. inversion H.
  - rewrite andb_true_iff, IH1, IH2. split.
    + intros [H1 H2]. by apply matches_cat_nil_l.
    + intros (s1 & s2 & Heq & H1 & H2)%matches_cat_inv.
      symmetry in Heq. apply app_eq_nil in Heq as [-> ->]. done.
  - rewrite orb_true_iff, IH1, IH2. split.
    + intros [H|H]; [by apply MAltL|by apply MAltR].
    + apply matches_alt_inv.
  - split; [constructor|done].
Qed.

Lemma matches_star_cons r c s :
  matches (RStar r) (c :: s) →
  ∃ s1 s2, s = s1 ++ s2 ∧ matches r (c :: s1) ∧ matches (RStar r) s2.
Proof.
  intros H. remember (RStar r) as r' eqn:Hr. remember (c :: s) as w eqn:Hw.
  revert s Hw. induction H as [| | | | | | |r0 s1 s2 H1 _ H2 IH2]; intros t Hw;
    try discriminate.
  injection Hr as ->. destruct s1 as [|c1 s1]; simpl in Hw.
  - apply IH2; auto.
  - injection Hw as -> <-. exists s1, s2. auto.
Qed.

Lemma matches_cat_cons_inv r1 r2 c s :
  matches (RCat r1 r2) (c :: s) →
  (∃ s1 s2, s = s1 ++ s2 ∧ matches r1 (c :: s1) ∧ matches r2 s2)
  ∨ (matches r1 [] ∧ matches r2 (c :: s)).
Proof.
  intros (s1 & s2 & Heq & H1 & H2)%matches_cat_inv.
  destruct s1 as [|c1 s1]; simpl in Heq.
  - right. subst. auto.
  - injection Heq as -> ->. left. eauto.
Qed.

Lemma deriv_matches c r s : matches (deriv c r) s ↔ matches r (c :: s).
Proof.
  revert s. induction r as [| |d|neg items|r1 IH1 r2 IH2|r1 IH1 r2 IH2|r IH];
    intros s; simpl.
  - split; intros H; inversion H.
  - split; intros H; inversion H.
  - destruct (N.eqb_spec c d) as [->|Hne]; split; intros H.
    + inversion H; subst. constructor.
    + apply matches_chr_inv in H. injection H as ->. constructor.
    + inversion H.
    + apply matches_chr_inv in H. congruence.
  - destruct (class_mem neg items c) eqn:Hm; split; intros H.
    + inversion H; subst. by constructor.
    + apply matches_set_inv in H as (c' & Heq & _). injection Heq as _ ->. constructor.
    + inversion H.
    + apply matches_set_inv in H as (c' & Heq & Hc). injection Heq as -> _. congruence.
  - assert (Hcat : ∀ s, matches (RCat (deriv c r1) r2) s →
                        matches (RCat r1 r2) (c :: s)).
    { intros s' (s1 & s2 & -> & H1 & H2)%matches_cat_inv.
      apply matches_cat_cons; [by apply IH1|done]. }
    destruct (nullable r1) eqn:Hn; split; intros H.
    + apply matches_alt_inv in H as [H|H]; [by apply Hcat|].
      apply matches_cat_nil_l; [by apply nullable_matches|by apply IH2].
    + apply matches_cat_cons_inv in H as [(s1 & s2 & -> & H1 & H2)|[H1 H2]].
      * apply MAltL. constructor; [by apply IH1|done].
      * apply MAltR. by apply IH2.
    + by apply Hcat.
    + apply matches_cat_cons_inv in H as [(s1 & s2 & -> & H1 & H2)|[H1 H2]].
      * constructor; [by apply IH1|done].
      * apply nullable_matches in H1. congruence.
  - split; intros [H|H]%matches_alt_inv.
    + apply MAltL. by apply IH1.
    + apply MAltR. by apply IH2.
    + apply MAltL. by apply IH1.
    + apply MAltR. by apply IH2.
  - split; intros H.
    + apply matches_cat_inv in H as (s1 & s2 & -> & H1 & H2).
      apply (MStarApp r (c :: s1) s2); [by apply IH|done].
    + apply matches_star_cons in H as (s1 & s2 & -> & H1 & H2).
      constructor; [by apply IH|done].
Qed.

Lemma test_matches r s : test r s = true ↔ matches r s.
Proof.
  revert r. induction s as [|c s IH]; intros r; simpl.
  - apply nullable_matches.
  - rewrite IH. apply deriv_matches.
Qed.

Lemma matches_star_set neg items s :
  matches (RStar (RSet neg items)) s ↔ Forall (λ c, class_mem neg items c = true) s.
Proof.
  split.
  - intros H. remember (RStar (RSet neg items)) as r eqn:Hr.
    induction H as [| | | | | | |r0 s1 s2 H1 _ H2 IH2]; try discriminate.
    + constructor.
    + injection Hr as ->. apply matches_set_inv in H1 as (c & -> & Hc).
      constructor; auto.
  - induction 1 as [|c s Hc _ IH].
    + constructor.
    + apply (MStarApp _ [c] s); [by constructor|done].
Qed.

Lemma matches_plus_set neg items s :
  matches (RPlus (RSet neg items)) s ↔
  s ≠ [] ∧ Forall (λ c, class_mem neg items c = true) s.
Proof.
  unfold RPlus. split.
  - intros (s1 & s2 & -> & H1 & H2)%matches_cat_inv.
    apply matches_set_inv in H1 as (c & -> & Hc). split; [done|].
    constructor; [done|]. by apply matches_star_set.
  - intros [Hne Hall]. destruct s as [|c s]; [done|].
    inversion Hall; subst.
    apply (MCat _ _ [c] s); [by constructor|].
    by apply matches_star_set.
Qed.

End RegexFacts.

(** ** The two patterns of [validateForm] *)

Section Patterns.
Import Js Regex Modal Rules.

Lemma class_mem_part c : class_mem true [CSpace; CChar 64] c = partChar c.
Proof.
  unfold class_mem, partChar. simpl.
  destruct (is_space c), (c =? 64); reflexivity.
Qed.

Lemma class_mem_phone c :
  class_mem false [CDigit; CSpace; CChar 45; CChar 43; CChar 40; CChar 41] c
  = phoneChar c.
Proof.
  unfold class_mem, phoneChar. simpl.
  destruct (is_digit c), (is_space c), (c =? 45), (c =? 43), (c =? 40), (c =? 41);
    reflexivity.
Qed.

Lemma matches_part s :
  matches (RPlus (RSet true [CSpace; CChar 64])) s ↔ part s.
Proof.
  rewrite matches_plus_set. unfold part.
  apply and_iff_compat_l, Forall_iff. intros c. by rewrite class_mem_part.
Qed.

Lemma test_emailRegex s : test emailRegex s = true ↔ emailShaped s.
Proof.
  rewrite test_matches. unfold emailRegex, emailShaped. split.
  - intros (loc & s1 & -> & Hloc & H1)%matches_cat_inv.
    apply matches_cat_inv in H1 as (at' & s2 & -> & Hat & H2).
    apply matches_cat_inv in H2 as (dom & s3 & -> & Hdom & H3).
    apply matches_cat_inv in H3 as (dot & tld & -> & Hdot & Htld).
    apply matches_chr_inv in Hat as ->. apply matches_chr_inv in Hdot as ->.
    exists loc, dom, tld. rewrite <- !matches_part. done.
  - intros (loc & dom & tld & -> & Hloc & Hdom & Htld).
    rewrite <- matches_part in Hloc, Hdom, Htld.
    repeat (constructor; try done).
Qed.

Lemma test_phoneRegex s :
  test phoneRegex s = true ↔ s ≠ [] ∧ Forall (λ c, phoneChar c = true) s.
Proof.
  rewrite test_matches. unfold phoneRegex. rewrite matches_plus_set.
  apply and_iff_compat_l, Forall_iff. intros c. by rewrite class_mem_phone.
Qed.

End Patterns.

(** ** Reads and assignments on plain objects *)

Section Objects.
Import Js Regex Modal Rules.

Lemma get_readOf (fd : gmap (list N) value) k : get fd k = readOf k (fd !! k).
Proof. reflexivity. Qed.

Lemma get_own {A} (o : gmap (list N) A) k a : o !! k = Some a → get o k = Own a.
Proof. unfold get. by intros ->. Qed.

Lemma get_plain {A} (o : gmap (list N) A) k :
  plainKey k → o !! k = None → get o k = Missing.
Proof.
  unfold get, plainKey. intros Hk ->. by rewrite bool_decide_eq_false_2.
Qed.

Lemma get_empty_plain {A} k : plainKey k → get (∅ : gmap (list N) A) k = Missing.
Proof. intros Hk. apply get_plain; [done|apply lookup_empty]. Qed.

Lemma proto_not_plain : ¬ plainKey (str "__proto__").
Proof. unfold plainKey. intros H. apply H. apply (bool_decide_unpack _). by vm_compute. Qed.

Lemma plain_not_proto k : plainKey k → k ≠ str "__proto__".
Proof. intros Hk ->. by apply proto_not_plain. Qed.

Lemma assignText_lookup o k m j :
  assignText o k m !! j
  = if bool_decide (k = str "__proto__") then o !! j
    else if decide (k = j) then Some m else o !! j.
Proof.
  unfold assignText. case_bool_decide; [done|].
  destruct (decide (k = j)) as [->|Hne].
  - by rewrite lookup_insert_eq.
  - by rewrite lookup_insert_ne.
Qed.

(** Every member of [Object.prototype], turned into a string, fails both
    patterns: the text holds white space and letters. *)
Lemma member_fails_patterns name :
  name ∈ memberNames →
  test emailRegex (memberText name) = false
  ∧ test phoneRegex (memberText name) = false.
Proof.
  unfold memberNames. rewrite !elem_of_cons, elem_of_nil.
  intros H. decompose [or] H; subst; try done; by vm_compute.
Qed.

End Objects.

(** ** Validation, field by field *)

Section Validation.
Import Js Regex Modal Rules.

Implicit Types (fd : gmap (list N) value) (acc : gmap (list N) (list N)).
Implicit Types (f g : FormField.t) (fs : list FormField.t).

Lemma validateField_fieldError fd acc f :
  validateField fd acc f =
  match fieldError f (get fd (FormField.id f)) with
  | Some m => assignText acc (FormField.id f) m
  | None => acc
  end.
Proof.
  unfold validateField, fieldError.
  destruct (bool_decide (FormField.field_type f = str "email")) eqn:He;
    destruct (bool_decide (FormField.field_type f = str "phone")) eqn:Hp.
  { apply bool_decide_eq_true in He, Hp. rewrite He in Hp. discriminate. }
  all: destruct (FormField.is_required f), (truthyGot (get fd (FormField.id f)));
    simpl; try reflexivity.
  all: try (destruct (test emailRegex _); reflexivity).
  all: try (destruct (test phoneRegex _); reflexivity).
Qed.

Lemma validateField_outcome fd acc f :
  validateField fd acc f =
  match fieldOutcome f (fd !! FormField.id f) with
  | Some m => <[FormField.id f := m]> acc
  | None => acc
  end.
Proof.
  rewrite validateField_fieldError. unfold fieldOutcome, assignText.
  rewrite <- get_readOf.
  case_bool_decide; [by destruct (fieldError f _)|done].
Qed.

Lemma validate_lookup_other fd fs acc k :
  k ∉ map FormField.id fs →
  foldl (validateField fd) acc fs !! k = acc !! k.
Proof.
  revert acc. induction fs as [|f fs IH]; intros acc Hk; simpl; [done|].
  simpl in Hk. apply not_elem_of_cons in Hk as [Hne Hk].
  rewrite IH by done. rewrite validateField_outcome.
  destruct (fieldOutcome f _); [|done]. by rewrite lookup_insert_ne.
Qed.

Lemma validate_lookup_field fd fs acc f :
  NoDup (map FormField.id fs) → f ∈ fs →
  foldl (validateField fd) acc fs !! FormField.id f =
  match fieldOutcome f (fd !! FormField.id f) with
  | Some m => Some m
  | None => acc !! FormField.id f
  end.
Proof.
  revert acc. induction fs as [|g fs IH]; intros acc Hnd Hin; simpl.
  { by apply elem_of_nil in Hin. }
  simpl in Hnd. apply NoDup_cons in Hnd as [Hg Hnd].
  apply elem_of_cons in Hin as [->|Hin].
  - rewrite validate_lookup_other by done. rewrite validateField_outcome.
    destruct (fieldOutcome g _); [by rewrite lookup_insert_eq|done].
  - rewrite IH by done. destruct (fieldOutcome f _); [done|].
    rewrite validateField_outcome.
    assert (FormField.id g ≠ FormField.id f) as Hne.
    { intros Heq. apply Hg. rewrite Heq. by apply list_elem_of_fmap_2. }
    destruct (fieldOutcome g _); [|done]. by rewrite lookup_insert_ne.
Qed.

Lemma newErrors_field fd fs f :
  NoDup (map FormField.id fs) → f ∈ fs →
  newErrorsOf fs fd !! FormField.id f = fieldOutcome f (fd !! FormField.id f).
Proof.
  intros Hnd Hin. unfold newErrorsOf. rewrite validate_lookup_field by done.
  destruct (fieldOutcome f _); [done|apply lookup_empty].
Qed.

Lemma newErrors_other fd fs k :
  k ∉ map FormField.id fs → newErrorsOf fs fd !! k = None.
Proof.
  intros Hk. unfold newErrorsOf. rewrite validate_lookup_other by done.
  apply lookup_empty.
Qed.



Lemma fieldError_message f v m :
  fieldError f v = Some m →
  m = requiredMessage f ∨ m = emailMessage ∨ m = phoneMessage.
Proof.
  unfold fieldError. intros H.
  repeat match type of H with
         | (if ?b then _ else _) = _ => destruct b
         end; inversion H; auto.
Qed.

Lemma fieldOutcome_message f o m :
  fieldOutcome f o = Some m →
  m = requiredMessage f ∨ m = emailMessage ∨ m = phoneMessage.
Proof.
  unfold fieldOutcome. case_bool_decide; [discriminate|apply fieldError_message].
Qed.

Lemma message_nonempty f m :
  m = requiredMessage f ∨ m = emailMessage ∨ m = phoneMessage → m ≠ [].
Proof.
  intros [->|[->| ->]]; try discriminate.
  unfold requiredMessage. intros [_ H]%app_eq_nil. discriminate.
Qed.

Lemma validate_entries fd fs acc k m :
  foldl (validateField fd) acc fs !! k = Some m →
  acc !! k = Some m
  ∨ ∃ f, f ∈ fs ∧ FormField.id f = k
         ∧ (m = requiredMessage f ∨ m = emailMessage ∨ m = phoneMessage).
Proof.
  revert acc. induction fs as [|f fs IH]; intros acc H; simpl in H; [by left|].
  apply IH in H as [H|(g & Hg & Hk & Hm)].
  - rewrite validateField_outcome in H.
    destruct (fieldOutcome f _) as [m'|] eqn:He; [|by left].
    destruct (decide (FormField.id f = k)) as [<-|Hne].
    + rewrite lookup_insert_eq in H. injection H as ->.
      right. exists f. split; [left|]. split; [done|].
      by eapply fieldOutcome_message.
    + rewrite lookup_insert_ne in H by done. by left.
  - right. exists g. split; [by right|done].
Qed.

Lemma foldl_agree {A B} (f g : A → B → A) (l : list B) (a : A) :
  (∀ a x, x ∈ l → f a x = g a x) → foldl f a l = foldl g a l.
Proof.
  revert a. induction l as [|x l IH]; intros a H; simpl; [done|].
  rewrite (H a x) by left. apply IH. intros a' y Hy. apply H. by right.
Qed.

End Validation.

(** ** Submitting *)

Section Submit.
Import Js Regex Modal Rules.

Implicit Types (fd : gmap (list N) value) (fs : list FormField.t).
Implicit Types (f g : FormField.t) (o : object).

Lemma handleSubmit_errors p s :
  errors (handleSubmit p s).1 = newErrorsOf (fields s) (formData s).
Proof.
  unfold handleSubmit, validateForm.
  destruct (bool_decide _); [|reflexivity]. simpl.
  by destruct (responsesOf _ _).
Qed.

Lemma handleSubmit_invalid p s :
  newErrorsOf (fields s) (formData s) ≠ ∅ →
  handleSubmit p s = (setErrors (newErrorsOf (fields s) (formData s)) s, []).
Proof.
  intros Hne. unfold handleSubmit, validateForm.
  rewrite bool_decide_eq_false_2; [done|]. by rewrite map_size_empty_iff.
Qed.

Lemma handleSubmit_valid p s o :
  newErrorsOf (fields s) (formData s) = ∅ →
  responsesOf (fields s) (formData s) = Some o →
  handleSubmit p s =
  (setIsSubmitting true (setErrors ∅ s),
   [Insert {| form_id := formId p;
              program_id := orNull (programId p);
              course_id := orNull (courseId p);
              responses := own o |}]).
Proof.
  intros He Hr. unfold handleSubmit, validateForm. rewrite He, Hr.
  rewrite bool_decide_eq_true_2; [done|]. apply map_size_empty.
Qed.

Lemma handleSubmit_thrown p s :
  newErrorsOf (fields s) (formData s) = ∅ →
  responsesOf (fields s) (formData s) = None →
  handleSubmit p s = (setIsSubmitting true (setErrors ∅ s), []).
Proof.
  intros He Hr. unfold handleSubmit, validateForm. rewrite He, Hr.
  rewrite bool_decide_eq_true_2; [done|]. apply map_size_empty.
Qed.

Lemma handleSubmit_cases p s :
  (newErrorsOf (fields s) (formData s) ≠ ∅
   ∧ handleSubmit p s = (setErrors (newErrorsOf (fields s) (formData s)) s, []))
  ∨ (newErrorsOf (fields s) (formData s) = ∅
     ∧ responsesOf (fields s) (formData s) = None
     ∧ handleSubmit p s = (setIsSubmitting true (setErrors ∅ s), []))
  ∨ (∃ o, newErrorsOf (fields s) (formData s) = ∅
          ∧ responsesOf (fields s) (formData s) = Some o
          ∧ handleSubmit p s =
            (setIsSubmitting true (setErrors ∅ s),
             [Insert {| form_id := formId p;
                        program_id := orNull (programId p);
                        course_id := orNull (courseId p);
                        responses := own o |}])).
Proof.
  destruct (decide (newErrorsOf (fields s) (formData s) = ∅)) as [He|Hne].
  - destruct (responsesOf (fields s) (formData s)) as [o|] eqn:Hr.
    + right. right. exists o. auto using handleSubmit_valid.
    + right. left. auto using handleSubmit_thrown.
  - left. auto using handleSubmit_invalid.
Qed.

Lemma submitted_row p s row :
  (handleSubmit p s).2 = [Insert row] →
  newErrorsOf (fields s) (formData s) = ∅
  ∧ ∃ o, responsesOf (fields s) (formData s) = Some o ∧ responses row = own o.
Proof.
  intros Hrow.
  destruct (handleSubmit_cases p s)
    as [[_ Heq]|[(_ & _ & Heq)|(o & He & Hr & Heq)]];
    rewrite Heq in Hrow; try discriminate.
  simpl in Hrow. injection Hrow as <-. eauto.
Qed.

Lemma put_own o k x o1 :
  put o k x = Some o1 →
  own o1 = if bool_decide (k = str "__proto__") then own o else <[k := x]> (own o).
Proof.
  unfold put. case_bool_decide.
  - intros [= <-]. by destruct (asProto x).
  - case_bool_decide; [by intros [= <-]|].
    destruct (refuses _ _); [discriminate|by intros [= <-]].
Qed.

Lemma put_plain o k x :
  prototype o = ObjectProto → k ≠ str "__proto__" →
  put o k x = Some {| own := <[k := x]> (own o); prototype := ObjectProto |}.
Proof.
  intros Hp Hk. unfold put. rewrite Hp.
  rewrite bool_decide_eq_false_2 by done. simpl. by case_bool_decide.
Qed.

Lemma build_none fd fs :
  foldl
    (λ responses field,
       responses ≫= λ o,
         put o (FormField.label field) (orEmpty (get fd (FormField.id field))))
    None fs = None.
Proof. induction fs as [|f fs IH]; [done|apply IH]. Qed.

Lemma lastWithLabel_cons f fs l :
  lastWithLabel (f :: fs) l =
  match lastWithLabel fs l with
  | Some g => Some g
  | None => if decide (FormField.label f = l) then Some f else None
  end.
Proof.
  unfold lastWithLabel. rewrite filter_cons.
  destruct (decide (FormField.label f = l)); [|by destruct (last _)].
  rewrite last_cons. by destruct (last _).
Qed.

Lemma build_lookup fd fs o0 o l :
  foldl
    (λ responses field,
       responses ≫= λ o,
         put o (FormField.label field) (orEmpty (get fd (FormField.id field))))
    (Some o0) fs = Some o →
  l ≠ str "__proto__" →
  own o !! l =
  match lastWithLabel fs l with
  | Some f => Some (orEmpty (get fd (FormField.id f)))
  | None => own o0 !! l
  end.
Proof.
  revert o0. induction fs as [|f fs IH]; intros o0 Hb Hl; simpl in Hb.
  { by injection Hb as <-. }
  destruct (put o0 (FormField.label f) (orEmpty (get fd (FormField.id f))))
    as [o1|] eqn:Hput; simpl in Hb; [|by rewrite build_none in Hb].
  rewrite (IH o1 Hb Hl), lastWithLabel_cons.
  destruct (lastWithLabel fs l); [done|].
  rewrite (put_own _ _ _ _ Hput).
  destruct (decide (FormField.label f = l)) as [<-|Hne].
  - rewrite bool_decide_eq_false_2 by done. by rewrite lookup_insert_eq.
  - case_bool_decide; [done|]. by rewrite lookup_insert_ne.
Qed.

Lemma build_dom fd fs o0 o :
  foldl
    (λ responses field,
       responses ≫= λ o,
         put o (FormField.label field) (orEmpty (get fd (FormField.id field))))
    (Some o0) fs = Some o →
  dom (own o)
  = dom (own o0)
    ∪ list_to_set (filter (λ l, l ≠ str "__proto__") (map FormField.label fs)).
Proof.
  revert o0. induction fs as [|f fs IH]; intros o0 Hb; simpl in Hb.
  { injection Hb as <-. cbn. by rewrite union_empty_r_L. }
  destruct (put o0 (FormField.label f) (orEmpty (get fd (FormField.id f))))
    as [o1|] eqn:Hput; simpl in Hb; [|by rewrite build_none in Hb].
  rewrite (IH o1 Hb), (put_own _ _ _ _ Hput). simpl. rewrite filter_cons.
  case_bool_decide as Hk.
  - rewrite decide_False; [done|]. intros H. by apply H.
  - rewrite decide_True by done. rewrite list_to_set_cons, dom_insert_L.
    by rewrite (comm_L (∪) {[FormField.label f]}), <- (assoc_L (∪)).
Qed.

Lemma build_defined fd fs o0 :
  prototype o0 = ObjectProto →
  str "__proto__" ∉ map FormField.label fs →
  ∃ o,
    foldl
      (λ responses field,
         responses ≫= λ o,
           put o (FormField.label field) (orEmpty (get fd (FormField.id field))))
      (Some o0) fs = Some o
    ∧ prototype o = ObjectProto.
Proof.
  revert o0. induction fs as [|f fs IH]; intros o0 Hp Hl; simpl.
  { eauto. }
  simpl in Hl. apply not_elem_of_cons in Hl as [Hne Hl].
  rewrite put_plain by done. simpl. by apply IH.
Qed.

Lemma responsesOf_lookup fs fd o l :
  responsesOf fs fd = Some o →
  l ≠ str "__proto__" →
  own o !! l
  = (λ f, orEmpty (get fd (FormField.id f))) <$> lastWithLabel fs l.
Proof.
  intros Hb Hl. unfold responsesOf in Hb. rewrite (build_lookup _ _ _ _ _ Hb Hl).
  destruct (lastWithLabel fs l); [done|apply lookup_empty].
Qed.

Lemma responsesOf_dom fs fd o :
  responsesOf fs fd = Some o →
  dom (own o)
  = list_to_set (filter (λ l, l ≠ str "__proto__") (map FormField.label fs)).
Proof.
  intros Hb. unfold responsesOf in Hb. rewrite (build_dom _ _ _ _ Hb).
  simpl. by rewrite dom_empty_L, union_empty_l_L.
Qed.

Lemma responsesOf_defined fs fd :
  str "__proto__" ∉ map FormField.label fs → is_Some (responsesOf fs fd).
Proof.
  intros Hl. destruct (build_defined fd fs emptyObject eq_refl Hl) as (o & Ho & _).
  unfold responsesOf. rewrite Ho. by eexists.
Qed.


Lemma handleFieldChange_frame k v s :
  form (handleFieldChange k v s) = form s
  ∧ fields (handleFieldChange k v s) = fields s
  ∧ isSubmitting (handleFieldChange k v s) = isSubmitting s
  ∧ isSuccess (handleFieldChange k v s) = isSuccess s
  ∧ formData (handleFieldChange k v s) = <[k := v]> (formData s).
Proof.
  unfold handleFieldChange. by destruct (truthyText _).
Qed.

Lemma changes_cons k v edits s :
  changes ((k, v) :: edits) s = changes edits (handleFieldChange k v s).
Proof. reflexivity. Qed.

Lemma changes_frame edits s :
  form (changes edits s) = form s
  ∧ fields (changes edits s) = fields s
  ∧ isSubmitting (changes edits s) = isSubmitting s
  ∧ isSuccess (changes edits s) = isSuccess s.
Proof.
  revert s. induction edits as [|[k v] edits IH]; intros s; [done|].
  rewrite changes_cons.
  destruct (IH (handleFieldChange k v s)) as (H1 & H2 & H3 & H4).
  destruct (handleFieldChange_frame k v s) as (G1 & G2 & G3 & G4 & _).
  rewrite H1, H2, H3, H4, G1, G2, G3, G4. done.
Qed.

Lemma errorLine_change k v s j :
  errorLine (errors (handleFieldChange k v s)) j
  = if decide (j = k) then None else errorLine (errors s) j.
Proof.
  unfold handleFieldChange, errorLine.
  destruct (truthyText (get (errors s) k)) eqn:Ht; simpl.
  - destruct (decide (j = k)) as [->|Hne].
    + unfold get. by rewrite lookup_insert_eq.
    + unfold get. by rewrite lookup_insert_ne.
  - destruct (decide (j = k)) as [->|Hne]; [|done].
    by destruct (get (errors s) k) as [[|c m]| |].
Qed.

Lemma errors_change_lookup k v s j :
  j ≠ k → errors (handleFieldChange k v s) !! j = errors s !! j.
Proof.
  intros Hne. unfold handleFieldChange.
  destruct (truthyText _); simpl; [by rewrite lookup_insert_ne|done].
Qed.



Lemma errorLine_empty_plain k : plainKey k → errorLine ∅ k = None.
Proof. intros Hk. unfold errorLine. by rewrite get_empty_plain. Qed.

Lemma renderRow_plain s g :
  plainKey (FormField.id g) →
  ∃ r, renderRow s g = Some r
       ∧ row_error r = errorLine (errors s) (FormField.id g).
Proof.
  intros Hk. unfold renderRow.
  assert (isObjectMember (get (errors s) (FormField.id g)) = false) as Hobj.
  { unfold get. destruct (errors s !! FormField.id g); [done|].
    unfold plainKey in Hk. by rewrite bool_decide_eq_false_2. }
  assert (is_Some (renderBoxes s g)) as [boxes Hboxes].
  { unfold renderBoxes. apply mapM_is_Some, Forall_forall. intros opt _. simpl.
    unfold get. destruct (formData s !! FormField.id g) as [[[|c t]|items]|];
      simpl; try by eexists.
    unfold plainKey in Hk. rewrite bool_decide_eq_false_2 by done.
    by eexists. }
  rewrite Hboxes, Hobj.
  destruct (renderField g); simpl; rewrite ?Hobj; by eexists.
Qed.

Lemma renderRows_plain s fs :
  Forall plainKey (map FormField.id fs) →
  ∃ rows, mapM (renderRow s) fs = Some rows
          ∧ Forall2 (λ g r, row_error r = errorLine (errors s) (FormField.id g))
              fs rows.
Proof.
  induction fs as [|g fs IH]; intros Hall.
  { exists []. split; [done|constructor]. }
  simpl in Hall. apply Forall_cons in Hall as [Hg Hall].
  destruct (IH Hall) as (rows & Hrows & Hrel).
  destruct (renderRow_plain s g Hg) as (r & Hr & He).
  exists (r :: rows). split; [|by constructor].
  cbn. by rewrite Hr, Hrows.
Qed.

Lemma render_cases s (d : RegistrationForm.t) :
  form s = Some d → isSuccess s = false →
  render s = Crash
  ∨ ∃ rows, mapM (renderRow s) (fields s) = Some rows
            ∧ render s
              = FormPanel (RegistrationForm.name d) rows (isSubmitting s)
                  (if isSubmitting s then str "Submitting..." else str "Submit").
Proof.
  intros Hf Hs. unfold render. rewrite Hf, Hs.
  destruct (mapM _ _) as [rows|]; [right; eauto|by left].
Qed.

Lemma blank_errors_hidden (es : gmap (list N) (list N)) k :
  (∀ j m, es !! j = Some m → m = []) → plainKey k → errorLine es k = None.
Proof.
  intros Hblank Hk. unfold errorLine, get.
  destruct (es !! k) as [m|] eqn:Hm.
  - by rewrite (Hblank k m Hm).
  - unfold plainKey in Hk. by rewrite bool_decide_eq_false_2.
Qed.

Lemma changes_errors_blank edits s :
  (∀ j m, errors s !! j = Some m → m = []) →
  ∀ j m, errors (changes edits s) !! j = Some m → m = [].
Proof.
  revert s. induction edits as [|[k v] edits IH]; intros s Hblank; [done|].
  rewrite changes_cons. apply IH. intros j m.
  unfold handleFieldChange. destruct (truthyText _); simpl; [|apply Hblank].
  destruct (decide (k = j)) as [->|Hne].
  - rewrite lookup_insert_eq. by intros [= <-].
  - rewrite lookup_insert_ne by done. apply Hblank.
Qed.

End Submit.

(** ** The claims *)

Section Claims.
Import Js Regex Modal Rules Host.

(** C1 (as amended): for a field marked required whose draft entry is
    absent, its identity not being the name of a member of
    [Object.prototype], or is the empty string, its identity not being
    [__proto__], a submit attempt records one error under that field's
    identity, reading "<label> is required"; the error line of the field
    shows it, the rest of the state is as before, and no insert (no call at
    all) is made.  Field identities are unique within a form.  An empty list
    is not an empty entry: see C10. *)
Theorem required_empty_field_blocks_submit
    (p : props) (s : state) (f : FormField.t) :
  NoDup (map FormField.id (fields s)) →
  f ∈ fields s →
  FormField.is_required f = true →
  (formData s !! FormField.id f = None ∧ plainKey (FormField.id f))
    ∨ (formData s !! FormField.id f = Some (VStr [])
       ∧ FormField.id f ≠ str "__proto__") →
  errors (handleSubmit p s).1 !! FormField.id f
    = Some (FormField.label f ++ str " is required")
  ∧ errorLine (errors (handleSubmit p s).1) (FormField.id f)
    = Some (FormField.label f ++ str " is required")
  ∧ (handleSubmit p s).1 = setErrors (errors (handleSubmit p s).1) s
  ∧ (handleSubmit p s).2 = [].
Proof.
  intros Hnd Hin Hreq Hempty.
  assert (truthyGot (get (formData s) (FormField.id f)) = false) as Hfalsy.
  { destruct Hempty as [[He Hplain]|[He _]].
    - by rewrite (get_plain _ _ Hplain He).
    - by rewrite (get_own _ _ _ He). }
  assert (FormField.id f ≠ str "__proto__") as Hid.
  { destruct Hempty as [[_ Hplain]|[_ Hid]]; [by apply plain_not_proto|done]. }
  assert (newErrorsOf (fields s) (formData s) !! FormField.id f
          = Some (requiredMessage f)) as Hlook.
  { rewrite newErrors_field by done. unfold fieldOutcome.
    rewrite bool_decide_eq_false_2 by done.
    rewrite <- get_readOf. unfold fieldError. rewrite Hreq, Hfalsy.
    by rewrite !andb_false_r. }
  assert (newErrorsOf (fields s) (formData s) ≠ ∅) as Hne.
  { intros He. rewrite He, lookup_empty in Hlook. discriminate. }
  rewrite (handleSubmit_invalid p s Hne). simpl.
  split; [exact Hlook|]. split; [|done].
  unfold errorLine. rewrite (get_own _ _ _ Hlook). unfold requiredMessage.
  destruct (FormField.label f); reflexivity.
Qed.




(** C5 (as amended): for a field of type phone whose identity is not
    [__proto__] and whose draft value is a non-empty string, validation
    leaves the field without an error if and only if every character is a
    digit, a white-space character of [\s] (the space, but also tab, line
    breaks, no-break space and the like), [-], [+], [(] or [)]; otherwise the
    field's error is "Please enter a valid phone number".  Field identities
    are unique. *)
Theorem phone_accepted_iff_chars
    (p : props) (s : state) (f : FormField.t) (v : list N) :
  NoDup (map FormField.id (fields s)) →
  f ∈ fields s →
  FormField.field_type f = str "phone" →
  formData s !! FormField.id f = Some (VStr v) →
  v ≠ [] →
  FormField.id f ≠ str "__proto__" →
  (errors (handleSubmit p s).1 !! FormField.id f = None
     ↔ Forall (λ c, phoneChar c = true) v)
  ∧ (¬ Forall (λ c, phoneChar c = true) v →
     errors (handleSubmit p s).1 !! FormField.id f
       = Some (str "Please enter a valid phone number")).
Proof.
  intros Hnd Hin Hty Hv Hne Hid.
  rewrite handleSubmit_errors, newErrors_field by done.
  unfold fieldOutcome. rewrite bool_decide_eq_false_2 by done.
  rewrite Hv. unfold readOf, fieldError. rewrite Hty.
  cbn [truthyGot toStringGot toString].
  assert (truthy (Some (VStr v)) = true) as -> by by destruct v.
  rewrite bool_decide_eq_true_2 by done. cbn [andb negb].
  pose proof (test_phoneRegex v) as Htest.
  destruct (test phoneRegex v); cbn [negb].
  all: rewrite ?andb_false_r;
    rewrite ?(bool_decide_eq_false_2 (str "phone" = str "email")) by discriminate;
    cbn [andb].
  - destruct Htest as [[_ Hall] _]; [done|]. split; [done|]. by intros [].
  - assert (¬ Forall (λ c, phoneChar c = true) v) as Hn.
    { intros Hall. destruct Htest as [_ Htest]. by specialize (Htest (conj Hne Hall)). }
    split; [|done]. split; [discriminate|]. intros Hall. by destruct Hn.
Qed.

(** C6: when the error of field [k] is showing, a change of [k]'s draft value
    makes the error line of [k] disappear and leaves the entry, and so the
    error line, of every other field as it was. *)
Theorem change_clears_own_error
    (s : state) (k : list N) (v : value) (m : list N) :
  errorLine (errors s) k = Some m →
  errorLine (errors (handleFieldChange k v s)) k = None
  ∧ (∀ j, j ≠ k → errors (handleFieldChange k v s) !! j = errors s !! j)
  ∧ (∀ j, j ≠ k →
       errorLine (errors (handleFieldChange k v s)) j = errorLine (errors s) j).
Proof.
  intros _. split; [|split].
  - rewrite errorLine_change. by rewrite decide_True.
  - intros j Hj. by apply errors_change_lookup.
  - intros j Hj. rewrite errorLine_change. by rewrite decide_False.
Qed.


(** C8 (as amended): while the form definition is absent (loading, or not
    found) the component renders nothing and offers no close action.  Once
    it is loaded, the view offers a button wired to [onClose] whenever
    rendering does not throw, which is the case on the success panel and
    whenever no field identity is the name of a member of
    [Object.prototype].  The close action leaves the component state alone,
    calls [onClose] and nothing else, so no insert; on the host it unmounts
    the modal, which drops the draft, adds no insert to those the store has
    received, and no later event of the modal changes that. *)
Theorem close_discards_without_insert (p : props) (s : state) :
  (form s = None → render s = Nothing ∧ closeButtons (render s) = [])
  ∧ (is_Some (form s) → render s ≠ Crash → closeButtons (render s) ≠ [])
  ∧ (is_Some (form s) →
     isSuccess s = true ∨ Forall plainKey (map FormField.id (fields s)) →
     render s ≠ Crash)
  ∧ step p s EvClose = (s, [OnClose])
  ∧ (∀ c, c ∈ (step p s EvClose).2 → isInsert c = false)
  ∧ (∀ h, mounted h = Some s →
       dispatch p h EvClose = {| mounted := None; inserts := inserts h |}
       ∧ ∀ es, foldl (dispatch p) (dispatch p h EvClose) es
               = {| mounted := None; inserts := inserts h |}).
Proof.
  split; [|split; [|split; [|split; [done|split]]]].
  - intros Hf. unfold render. by rewrite Hf.
  - intros [d Hd]. unfold render. rewrite Hd.
    destruct (isSuccess s); [done|]. by destruct (mapM _ _).
  - intros [d Hd] Hok. unfold render. rewrite Hd.
    destruct (isSuccess s) eqn:Hs; [done|].
    destruct Hok as [?|Hplain]; [done|].
    by destruct (renderRows_plain s (fields s) Hplain) as (rows & -> & _).
  - intros c Hc. simpl in Hc. by apply list_elem_of_singleton in Hc as ->.
  - intros h Hh.
    assert (dispatch p h EvClose = {| mounted := None; inserts := inserts h |}) as ->.
    { unfold dispatch. by rewrite Hh. }
    split; [done|]. intros es. induction es as [|e es IH]; [done|]. exact IH.
Qed.

(** C9: with field identities unique, the error recorded for a field is a
    function of that field's definition and its own draft entry alone, no
    other key gets an error, and validating any permutation of the field list
    against the same draft gives the same error set and the same verdict. *)
Theorem validation_order_independent (s : state) (fs : list FormField.t) :
  NoDup (map FormField.id (fields s)) →
  fields s ≡ₚ fs →
  errors (validateForm (setFields fs s)).1 = errors (validateForm s).1
  ∧ (validateForm (setFields fs s)).2 = (validateForm s).2
  ∧ (∀ f, f ∈ fields s →
       errors (validateForm s).1 !! FormField.id f
       = fieldOutcome f (formData s !! FormField.id f))
  ∧ (∀ k, k ∉ map FormField.id (fields s) →
       errors (validateForm s).1 !! k = None).
Proof.
  intros Hnd Hperm. unfold validateForm. simpl.
  assert (newErrorsOf fs (formData s) = newErrorsOf (fields s) (formData s)) as ->.
  { apply map_eq. intros k.
    destruct (decide (k ∈ map FormField.id (fields s))) as [Hin|Hout].
    - apply list_elem_of_fmap in Hin as (f & -> & Hf).
      rewrite !newErrors_field; try done.
      + by rewrite <- Hperm.
      + by rewrite <- Hperm.
    - rewrite !newErrors_other; try done. by rewrite <- Hperm. }
  split; [done|]. split; [done|]. split.
  - intros f Hf. by apply newErrors_field.
  - intros k Hk. by apply newErrors_other.
Qed.

(** C10 (as amended): for a checkbox field whose draft value is the empty
    list, required or not, validation records no error (field identities
    being unique), and when the submit issues the insert and the label of the
    field is not [__proto__], the record maps that label to the value of the
    last field in display order that carries it: to the empty list, not the
    empty string, when no later field shares the label, and to that later
    field's value otherwise. *)
Theorem empty_checkbox_counts_as_filled
    (p : props) (s : state) (f : FormField.t) :
  NoDup (map FormField.id (fields s)) →
  f ∈ fields s →
  FormField.field_type f = str "checkbox" →
  formData s !! FormField.id f = Some (VArr []) →
  errors (handleSubmit p s).1 !! FormField.id f = None
  ∧ (∀ row, (handleSubmit p s).2 = [Insert row] →
       FormField.label f ≠ str "__proto__" →
       responses row !! FormField.label f
       = (λ g, orEmpty (get (formData s) (FormField.id g)))
           <$> lastWithLabel (fields s) (FormField.label f)
       ∧ (lastWithLabel (fields s) (FormField.label f) = Some f →
          responses row !! FormField.label f = Some (Entered (VArr [])))).
Proof.
  intros Hnd Hin Hty Hv. split.
  - rewrite handleSubmit_errors, newErrors_field by done.
    unfold fieldOutcome. case_bool_decide; [done|].
    rewrite Hv. unfold readOf, fieldError. rewrite Hty.
    rewrite !bool_decide_eq_false_2 by discriminate.
    cbn [andb truthyGot truthy negb]. by rewrite andb_false_r.
  - intros row Hrow Hl. apply submitted_row in Hrow as (_ & o & Hr & ->).
    rewrite (responsesOf_lookup _ _ _ _ Hr Hl). split; [done|].
    intros ->. simpl. by rewrite (get_own _ _ _ Hv).
Qed.

End Claims.

(** ** The scenarios of the specification, run on the component *)

Section Scenarios.
Import Js Regex Modal Rules Host Sample.

(** Name empty: error "Name is required", no call. *)
Example scenario_name_missing :
  handleSubmit modalProps (ready [nameField; emailField] ∅ ∅)
  = (ready [nameField; emailField] ∅
       {[ str "fld-name" := str "Name is required" ]}, []).
Proof. vm_compute. reflexivity. Qed.

(** Name "Ada", Email "not-an-email": the email error, no call. *)
Example scenario_bad_email :
  handleSubmit modalProps
    (ready [nameField; emailField]
       {[ str "fld-name" := VStr (str "Ada");
          str "fld-email" := VStr (str "not-an-email") ]} ∅)
  = (ready [nameField; emailField]
       {[ str "fld-name" := VStr (str "Ada");
          str "fld-email" := VStr (str "not-an-email") ]}
       {[ str "fld-email" := str "Please enter a valid email address" ]}, []).
Proof. vm_compute. reflexivity. Qed.

(** Name "Ada", Email "ada@example.com": the label-keyed record is inserted,
    and once the insert settles without error the success panel shows the
    configured message. *)
Example scenario_success :
  (handleSubmit modalProps
     (ready [nameField; emailField]
        {[ str "fld-name" := VStr (str "Ada");
           str "fld-email" := VStr (str "ada@example.com") ]} ∅)).2
  = [Insert (rowFor {[ str "Name" := VStr (str "Ada");
                       str "Email" := VStr (str "ada@example.com") ]})]
  ∧ render
      (insertSettled None
         (handleSubmit modalProps
            (ready [nameField; emailField]
               {[ str "fld-name" := VStr (str "Ada");
                  str "fld-email" := VStr (str "ada@example.com") ]} ∅)).1)
    = SuccessPanel (str "Thank you for registering!").
Proof. split; vm_compute; reflexivity. Qed.

(** Ticking and then unticking a box leaves the empty list in the draft. *)
Example untick_leaves_empty_list :
  formData
    <$> (checkboxChange sessionsField (str "Morning") true
           (ready [sessionsField] ∅ ∅)
         ≫= checkboxChange sessionsField (str "Morning") false)
  = Some {[ str "fld-sessions" := VArr [] ]}.
Proof. vm_compute. reflexivity. Qed.

End Scenarios.

(** ** The claims at concrete inputs *)

Section Instances.
Import Js Regex Modal Rules Host Sample.

(** Closes a decidable goal by evaluating its decision procedure. *)
Local Ltac decided := apply (bool_decide_unpack _); vm_compute; exact I.

(** C1 (amended) on the form with "Name" required and nothing entered. *)
Lemma required_empty_field_blocks_submit_witness :
  errors (handleSubmit modalProps (ready [nameField; emailField] ∅ ∅)).1
    !! FormField.id nameField
    = Some (FormField.label nameField ++ str " is required")
  ∧ errorLine (errors (handleSubmit modalProps (ready [nameField; emailField] ∅ ∅)).1)
      (FormField.id nameField)
    = Some (FormField.label nameField ++ str " is required")
  ∧ (handleSubmit modalProps (ready [nameField; emailField] ∅ ∅)).1
    = setErrors
        (errors (handleSubmit modalProps (ready [nameField; emailField] ∅ ∅)).1)
        (ready [nameField; emailField] ∅ ∅)
  ∧ (handleSubmit modalProps (ready [nameField; emailField] ∅ ∅)).2 = [].
Proof.
  apply (required_empty_field_blocks_submit modalProps
           (ready [nameField; emailField] ∅ ∅) nameField).
  - decided.
  - decided.
  - reflexivity.
  - left. split; [vm_compute; reflexivity|decided].
Defined.

(** C1 as stated fails twice.  A required checkbox group that was ticked and
    unticked holds the empty list: no error, and the insert is issued.  A
    required field whose identity is [constructor], with no entry in the
    draft: the read falls through to [Object.prototype], no error, and the
    insert is issued with the inherited member as the value. *)
Lemma required_check_misses_cases :
  (FormField.is_required sessionsField = true
   ∧ formData emptySessions !! FormField.id sessionsField = Some (VArr [])
   ∧ errors (handleSubmit modalProps emptySessions).1 = ∅
   ∧ (handleSubmit modalProps emptySessions).2
     = [Insert (rowFor {[ str "Name" := VStr (str "Ada");
                          str "Sessions" := VArr [] ]})])
  ∧ (FormField.is_required ctorField = true
     ∧ formData (ready [ctorField] ∅ ∅) !! FormField.id ctorField = None
     ∧ errors (handleSubmit modalProps (ready [ctorField] ∅ ∅)).1 = ∅
     ∧ (handleSubmit modalProps (ready [ctorField] ∅ ∅)).2
       = [Insert {| form_id := str "form-1"; program_id := None;
                    course_id := Some (str "course-7");
                    responses := {[ str "Ctor" := Borrowed (str "constructor") ]} |}]).
Proof. repeat split; vm_compute; reflexivity. Qed.






(** C5 (amended) on "+91 (080) 123-456". *)
Lemma phone_accepted_iff_chars_witness :
  (errors (handleSubmit modalProps (phoneReady (str "+91 (080) 123-456"))).1
     !! FormField.id phoneField = None
     ↔ Forall (λ c, phoneChar c = true) (str "+91 (080) 123-456"))
  ∧ (¬ Forall (λ c, phoneChar c = true) (str "+91 (080) 123-456") →
     errors (handleSubmit modalProps (phoneReady (str "+91 (080) 123-456"))).1
       !! FormField.id phoneField
       = Some (str "Please enter a valid phone number")).
Proof.
  apply (phone_accepted_iff_chars modalProps
           (phoneReady (str "+91 (080) 123-456")) phoneField).
  - decided.
  - decided.
  - reflexivity.
  - vm_compute. reflexivity.
  - discriminate.
  - discriminate.
Defined.

(** C5 as stated fails on a tab: the number contains a character outside
    [[0-9 \-+()]] and is accepted all the same, the insert being issued. *)
Lemma phone_with_tab_accepted :
  FormField.field_type phoneField = str "phone"
  ∧ formData (phoneReady tabbedNumber) !! FormField.id phoneField
    = Some (VStr tabbedNumber)
  ∧ tab ∈ tabbedNumber
  ∧ phoneCharLiteral tab = false
  ∧ errors (handleSubmit modalProps (phoneReady tabbedNumber)).1
      !! FormField.id phoneField = None
  ∧ (handleSubmit modalProps (phoneReady tabbedNumber)).2
    = [Insert (rowFor {[ str "Name" := VStr (str "Ada");
                         str "Phone" := VStr tabbedNumber ]})].
Proof.
  split; [reflexivity|]. split; [vm_compute; reflexivity|].
  split; [decided|]. split; [reflexivity|].
  split; vm_compute; reflexivity.
Qed.

(** C6 on the "Name is required" error, cleared by typing a letter. *)
Lemma change_clears_own_error_witness :
  errorLine (errors nameMissing) (str "fld-name") = Some (str "Name is required")
  ∧ errorLine
      (errors (handleFieldChange (str "fld-name") (VStr (str "A")) nameMissing))
      (str "fld-name") = None.
Proof.
  assert (errorLine (errors nameMissing) (str "fld-name")
          = Some (str "Name is required")) as Hshown.
  { vm_compute. reflexivity. }
  split; [exact Hshown|].
  exact (proj1 (change_clears_own_error nameMissing (str "fld-name")
                  (VStr (str "A")) (str "Name is required") Hshown)).
Defined.


(** C8 as stated fails while the form definition is loading, and for good
    when it is not found: the component renders nothing, so no close button. *)
Lemma loading_view_has_no_close_button :
  render initial = Nothing
  ∧ closeButtons (render initial) = []
  ∧ closeButtons (render (loadFormSettled None (Some [nameField]) initial)) = [].
Proof. repeat split. Qed.

(** C9 on the two orders of "Name" and "Email". *)
Lemma validation_order_independent_witness :
  errors (validateForm (setFields [emailField; nameField] nameMissing)).1
  = errors (validateForm nameMissing).1.
Proof.
  refine (proj1 (validation_order_independent nameMissing
                   [emailField; nameField] _ _)).
  - decided.
  - apply perm_swap.
Defined.

(** C10 (amended) on the required checkbox group holding the empty list. *)
Lemma empty_checkbox_counts_as_filled_witness :
  FormField.is_required sessionsField = true
  ∧ errors (handleSubmit modalProps emptySessions).1
      !! FormField.id sessionsField = None.
Proof.
  split; [reflexivity|].
  refine (proj1 (empty_checkbox_counts_as_filled modalProps emptySessions
                   sessionsField _ _ _ _)).
  - decided.
  - decided.
  - reflexivity.
  - vm_compute. reflexivity.
Defined.

(** C10 as stated fails when a later field shares the label: the empty list
    of the checkbox group is overwritten by that field's value. *)
Lemma shared_label_overwrites_empty_list :
  FormField.field_type sessionsField = str "checkbox"
  ∧ formData twoSessions !! FormField.id sessionsField = Some (VArr [])
  ∧ (handleSubmit modalProps twoSessions).2
    = [Insert (rowFor {[ str "Sessions" := VStr (str "Noon") ]})]
  ∧ responses (rowFor {[ str "Sessions" := VStr (str "Noon") ]})
      !! FormField.label sessionsField
    ≠ Some (Entered (VArr [])).
Proof.
  split; [reflexivity|]. split; [vm_compute; reflexivity|].
  split; [vm_compute; reflexivity|]. vm_compute. discriminate.
Qed.

End Instances.

(** ** Beyond the claims: editing *)

Section Editing.
Import Js Regex Modal Rules.

Lemma dom_errors_change k v s :
  dom (errors (handleFieldChange k v s))
  = dom (errors s) ∪ (if bool_decide (k ∈ memberNames) then {[k]} else ∅).
Proof.
  unfold handleFieldChange, get.
  destruct (errors s !! k) as [m|] eqn:Hk.
  - assert (dom (errors s) ∪ (if bool_decide (k ∈ memberNames) then {[k]} else ∅)
            = dom (errors s)) as ->.
    { case_bool_decide; [|by rewrite union_empty_r_L].
      rewrite (comm_L (∪)).
      apply subseteq_union_1_L, singleton_subseteq_l, elem_of_dom. by rewrite Hk. }
    destruct m; simpl; [done|].
    rewrite dom_insert_L. apply subseteq_union_1_L, singleton_subseteq_l.
    apply elem_of_dom. by rewrite Hk.
  - case_bool_decide; simpl; [|by rewrite union_empty_r_L].
    rewrite dom_insert_L. apply (comm_L (∪)).
Qed.

(** X1: editing only ever hides error lines.  Whatever fields are edited, in
    whatever order, the error line of every edited field is gone and the
    error line of every other field is what it was.  The error set keeps its
    keys (a cleared error stays as an empty string) and gains the edited keys
    that name a member of [Object.prototype], for which the inherited member
    counts as an error to clear. *)
Theorem edits_only_hide_errors
    (edits : list (list N * value)) (s : state) (j : list N) :
  dom (errors (changes edits s))
    = dom (errors s)
      ∪ list_to_set (filter (λ k, k ∈ memberNames) edits.*1)
  ∧ errorLine (errors (changes edits s)) j
    = if bool_decide (j ∈ edits.*1) then None else errorLine (errors s) j.
Proof.
  revert s. induction edits as [|[k v] edits IH]; intros s.
  - split; [cbn; by rewrite union_empty_r_L|].
    rewrite bool_decide_eq_false_2; [done|]. apply not_elem_of_nil.
  - rewrite changes_cons. destruct (IH (handleFieldChange k v s)) as [-> ->].
    split.
    + clear IH. rewrite dom_errors_change, fmap_cons, filter_cons. cbn [fst].
      case_bool_decide; case_decide; try done.
      * rewrite list_to_set_cons. by rewrite (assoc_L (∪)).
      * by rewrite union_empty_r_L.
    + clear IH. rewrite errorLine_change, fmap_cons. cbn [fst].
      repeat case_bool_decide; destruct (decide (j = k)) as [->|Hne]; try done.
      all: exfalso; rewrite elem_of_cons in *; tauto.
Qed.

(** X2: the draft after a run of edits: for every key the value of the last edit
    of that key, and the old entry for a key that was not edited. *)
Theorem edits_last_write_wins
    (edits : list (list N * value)) (s : state) (k : list N) :
  formData (changes edits s) !! k
  = match last (filter (λ e, e.1 = k) edits) with
    | Some e => Some e.2
    | None => formData s !! k
    end.
Proof.
  revert s. induction edits as [|[j v] edits IH]; intros s; [done|].
  rewrite changes_cons, IH, filter_cons. simpl.
  assert (formData (handleFieldChange j v s) = <[j := v]> (formData s)) as ->.
  { unfold handleFieldChange. by destruct (truthyText _). }
  destruct (decide (j = k)) as [->|Hne].
  - rewrite last_cons. destruct (last _); [done|]. simpl. by rewrite lookup_insert_eq.
  - destruct (last _); [done|]. by rewrite lookup_insert_ne.
Qed.

End Editing.

(** ** Beyond the claims: what validation records and reads *)

Section Recorded.
Import Js Regex Modal Rules.

Implicit Types (fd : gmap (list N) value) (fs : list FormField.t).
Implicit Types (f : FormField.t) (k m : list N).

(** X3: every error a submit attempt records sits under the identity of a
    listed field, is one of the three messages of that field, is not empty,
    and is therefore displayed under the field. *)
Theorem recorded_errors_are_shown
    (p : props) (s : state) (k m : list N) :
  errors (handleSubmit p s).1 !! k = Some m →
  (∃ f, f ∈ fields s ∧ FormField.id f = k
        ∧ (m = FormField.label f ++ str " is required"
           ∨ m = str "Please enter a valid email address"
           ∨ m = str "Please enter a valid phone number"))
  ∧ m ≠ []
  ∧ errorLine (errors (handleSubmit p s).1) k = Some m.
Proof.
  rewrite handleSubmit_errors. unfold newErrorsOf. intros H.
  destruct (validate_entries _ _ _ _ _ H) as [He|(f & Hf & Hk & Hm)].
  { by rewrite lookup_empty in He. }
  pose proof (message_nonempty f m Hm) as Hne.
  split; [by exists f|]. split; [done|].
  unfold errorLine. rewrite (get_own _ _ _ H). by destruct m.
Qed.

(** X4: a submit attempt reads the draft only at the identities of the
    listed fields: two drafts that agree there give the same errors and the
    same calls, whatever other keys they hold. *)
Theorem submit_reads_listed_entries_only
    (p : props) (s : state) (fd : gmap (list N) value) :
  (∀ f, f ∈ fields s → fd !! FormField.id f = formData s !! FormField.id f) →
  errors (handleSubmit p (setFormData fd s)).1 = errors (handleSubmit p s).1
  ∧ (handleSubmit p (setFormData fd s)).2 = (handleSubmit p s).2.
Proof.
  intros Hagree.
  assert (∀ f, f ∈ fields s →
               get fd (FormField.id f) = get (formData s) (FormField.id f)) as Hget.
  { intros f Hf. unfold get. by rewrite (Hagree f Hf). }
  assert (newErrorsOf (fields s) fd = newErrorsOf (fields s) (formData s)) as He.
  { unfold newErrorsOf. apply foldl_agree. intros acc f Hf.
    unfold validateField. by rewrite (Hget f Hf). }
  assert (responsesOf (fields s) fd = responsesOf (fields s) (formData s)) as Hr.
  { unfold responsesOf. apply foldl_agree. intros acc f Hf.
    by rewrite (Hget f Hf). }
  rewrite !handleSubmit_errors. cbn [fields formData setFormData].
  split; [done|].
  unfold handleSubmit, validateForm. cbn [fields formData setFormData].
  rewrite He, Hr. destruct (bool_decide _); simpl; [|done].
  destruct (responsesOf (fields s) (formData s)); reflexivity.
Qed.

(** X5: a value made of white space only is not trimmed: in a field of any
    type but email, a non-empty string of white-space characters passes the
    required rule and the phone rule, so the field gets no error. *)
Theorem blank_value_passes
    (p : props) (s : state) (f : FormField.t) (v : list N) :
  NoDup (map FormField.id (fields s)) →
  f ∈ fields s →
  FormField.field_type f ≠ str "email" →
  formData s !! FormField.id f = Some (VStr v) →
  v ≠ [] →
  Forall (λ c, is_space c = true) v →
  errors (handleSubmit p s).1 !! FormField.id f = None.
Proof.
  intros Hnd Hin Hty Hv Hne Hsp.
  rewrite handleSubmit_errors, newErrors_field by done.
  unfold fieldOutcome. case_bool_decide; [done|].
  rewrite Hv. unfold readOf, fieldError. cbn [truthyGot toStringGot toString].
  assert (truthy (Some (VStr v)) = true) as -> by by destruct v.
  assert (test phoneRegex v = true) as Hphone.
  { apply test_phoneRegex. split; [done|].
    eapply Forall_impl; [exact Hsp|]. intros c Hc. simpl in Hc.
    unfold phoneChar. rewrite Hc. by rewrite orb_true_r. }
  rewrite Hphone. cbn [negb].
  rewrite !andb_false_r.
  rewrite (bool_decide_eq_false_2 (FormField.field_type f = str "email")) by done.
  done.
Qed.

End Recorded.

(** ** Beyond the claims: the email pattern and the size of the record *)

Section Shapes.
Import Js Regex Modal Rules.

Lemma part_facts (s : list N) :
  part s →
  (1 ≤ length s)%nat
  ∧ filter (λ c, c = 64) s = []
  ∧ Forall (λ c, is_space c = false) s.
Proof.
  intros [Hne Hall]. split; [destruct s; [done|simpl; lia]|].
  clear Hne. induction Hall as [|c s Hc _ [IH1 IH2]]; [done|].
  unfold partChar in Hc. apply andb_true_iff in Hc as [Hsp Hat].
  apply negb_true_iff in Hsp, Hat. apply N.eqb_neq in Hat.
  split; [by rewrite filter_cons_False|by constructor].
Qed.

(** X6: every value the email pattern accepts holds exactly one [@], a [.]
    somewhere after it, no white space at all, and at least five
    characters. *)
Theorem accepted_email_facts (v : list N) :
  test emailRegex v = true →
  length (filter (λ c, c = 64) v) = 1%nat
  ∧ (∃ before after, v = before ++ [64] ++ after ∧ 46 ∈ after)
  ∧ Forall (λ c, is_space c = false) v
  ∧ (5 ≤ length v)%nat.
Proof.
  intros (loc & dom & tld & -> & Hloc & Hdom & Htld)%test_emailRegex.
  apply part_facts in Hloc as (L1 & L2 & L3).
  apply part_facts in Hdom as (D1 & D2 & D3).
  apply part_facts in Htld as (T1 & T2 & T3).
  split; [|split; [|split]].
  - rewrite !filter_app, L2, D2, T2. reflexivity.
  - exists loc, (dom ++ [46] ++ tld). split; [done|].
    rewrite !elem_of_app. right. left. by left.
  - rewrite !Forall_app. repeat split; try done; by repeat constructor.
  - rewrite !length_app. simpl. lia.
Qed.

Lemma size_list_to_set_le (l : list (list N)) :
  (size (list_to_set l : gset (list N)) ≤ length l)%nat
  ∧ (size (list_to_set l : gset (list N)) = length l ↔ NoDup l).
Proof.
  induction l as [|x l [IHle IHeq]].
  - rewrite list_to_set_nil, size_empty. split; [done|]. split; [constructor|done].
  - rewrite list_to_set_cons, length_cons.
    destruct (decide (x ∈ l)) as [Hin|Hout].
    + assert ({[x]} ∪ list_to_set l = (list_to_set l : gset (list N))) as ->.
      { apply subseteq_union_1_L, singleton_subseteq_l. by apply elem_of_list_to_set. }
      split; [lia|]. split; [lia|]. intros [Hx _]%NoDup_cons. done.
    + rewrite size_union, size_singleton.
      2:{ apply disjoint_singleton_l. by rewrite elem_of_list_to_set. }
      split; [lia|]. rewrite NoDup_cons. split.
      * intros H. split; [done|]. apply IHeq. lia.
      * intros [_ H]. apply IHeq in H. lia.
Qed.

Lemma filter_length_all {A} (P : A → Prop) `{!∀ x, Decision (P x)} (l : list A) :
  length (filter P l) = length l ↔ Forall P l.
Proof.
  induction l as [|x l IH].
  - split; [constructor|done].
  - rewrite filter_cons. destruct (decide (P x)) as [Hx|Hx].
    + rewrite Forall_cons. simpl. rewrite <- IH. split; [intros [= ?]|intros [_ ->]]; done.
    + pose proof (length_filter P l). simpl. split; [lia|].
      intros [? _]%Forall_cons. done.
Qed.

(** X7: the inserted record never has more keys than the form has fields,
    and it has exactly as many if and only if the labels are pairwise
    distinct and none of them is [__proto__]; with a shared label, or with
    the label [__proto__], an entry is lost. *)
Theorem record_size_counts_labels
    (p : props) (s : state) (row : submission) :
  (handleSubmit p s).2 = [Insert row] →
  (size (responses row) ≤ length (fields s))%nat
  ∧ (size (responses row) = length (fields s)
     ↔ NoDup (map FormField.label (fields s))
       ∧ str "__proto__" ∉ map FormField.label (fields s)).
Proof.
  intros Hrow. apply submitted_row in Hrow as (_ & o & Hr & ->).
  rewrite <- size_dom, (responsesOf_dom _ _ _ Hr).
  set (labels := map FormField.label (fields s)).
  set (kept := filter (λ l, l ≠ str "__proto__") labels).
  pose proof (size_list_to_set_le kept) as [Hle Heq].
  pose proof (length_filter (λ l, l ≠ str "__proto__") labels) as Hlen.
  pose proof (filter_length_all (λ l, l ≠ str "__proto__") labels) as Hall.
  fold kept in Hlen, Hall.
  assert (length labels = length (fields s)) as Hl by apply length_map.
  split; [lia|]. split.
  - intros Hsize.
    assert (length kept = length labels) as Hk by lia.
    assert (kept = labels) as Hsame.
    { apply Hall in Hk. subst kept.
      clear -Hk. induction Hk as [|x l Hx _ IH]; [done|].
      rewrite filter_cons_True by done. by rewrite IH. }
    split.
    + rewrite <- Hsame. apply Heq. lia.
    + apply Hall in Hk. rewrite Forall_forall in Hk.
      intros Hin. by apply (Hk _ Hin).
  - intros [Hnd Hno].
    assert (kept = labels) as Hsame.
    { subst kept. clear -Hno. induction labels as [|x l IH]; [done|].
      apply not_elem_of_cons in Hno as [Hx Hno].
      rewrite filter_cons_True by done. by rewrite IH. }
    rewrite Hsame in Heq |- *. rewrite <- Hl. by apply Heq.
Qed.

End Shapes.

(** ** Beyond the claims: the life of the component *)

Section Lifecycle.
Import Js Regex Modal Rules Controls.

Lemma handleSubmit_frame p s :
  form (handleSubmit p s).1 = form s
  ∧ fields (handleSubmit p s).1 = fields s
  ∧ formData (handleSubmit p s).1 = formData s
  ∧ isSuccess (handleSubmit p s).1 = isSuccess s.
Proof.
  by destruct (handleSubmit_cases p s)
    as [[_ ->]|[(_ & _ & ->)|(o & _ & _ & ->)]].
Qed.

Lemma step_keeps_form p s e :
  is_Some (form s) → is_Some (form (step p s e).1).
Proof.
  intros Hf. destruct e as [fr fsr|k v| |err|]; simpl; try done.
  - unfold loadFormSettled. destruct fr, fsr; simpl; eauto.
  - unfold handleFieldChange. by destruct (truthyText _).
  - by destruct (handleSubmit_frame p s) as (-> & _).
  - unfold insertSettled. by destruct err.
Qed.

Lemma step_keeps_success p s e :
  isSuccess s = true → isSuccess (step p s e).1 = true.
Proof.
  intros Hs. destruct e as [fr fsr|k v| |err|]; simpl; try done.
  - unfold loadFormSettled. by destruct fr, fsr.
  - unfold handleFieldChange. by destruct (truthyText _).
  - by destruct (handleSubmit_frame p s) as (_ & _ & _ & ->).
  - unfold insertSettled. by destruct err.
Qed.

Lemma run_cons p s e es :
  run p s (e :: es)
  = ((run p (step p s e).1 es).1, (step p s e).2 ++ (run p (step p s e).1 es).2).
Proof.
  simpl. destruct (step p s e) as [s1 c1]. simpl.
  by destruct (run p s1 es).
Qed.

Lemma orNull_not_empty o : orNull o ≠ Some [].
Proof. by destruct o as [[|c o]|]. Qed.

Lemma step_rows p s e :
  (length (insertedRows (step p s e).2)
   ≤ match e with EvSubmit => 1 | _ => 0 end)%nat
  ∧ Forall
      (λ row, form_id row = formId p
              ∧ program_id row = orNull (programId p)
              ∧ course_id row = orNull (courseId p))
      (insertedRows (step p s e).2).
Proof.
  destruct e as [fr fsr|k v| |err|]; simpl; try (split; [lia|constructor]).
  destruct (handleSubmit_cases p s)
    as [[_ ->]|[(_ & _ & ->)|(o & _ & _ & ->)]]; simpl.
  - split; [lia|constructor].
  - split; [lia|constructor].
  - split; [lia|]. by repeat constructor.
Qed.

(** X8: over any run of events, inserts are issued by submits only, at most
    one per submit, and every inserted row carries the form identifier of
    the props, and for the program and the course either the identifier of
    the props or null, never the empty string. *)
Theorem inserts_come_from_submits (p : props) (s : state) (es : list event) :
  (length (insertedRows (run p s es).2) ≤ submits es)%nat
  ∧ Forall
      (λ row, form_id row = formId p
              ∧ program_id row = orNull (programId p)
              ∧ course_id row = orNull (courseId p)
              ∧ program_id row ≠ Some [] ∧ course_id row ≠ Some [])
      (insertedRows (run p s es).2).
Proof.
  revert s. induction es as [|e es IH]; intros s.
  - simpl. split; [lia|constructor].
  - rewrite run_cons. cbn [snd]. unfold insertedRows in *.
    rewrite omap_app, length_app, Forall_app.
    destruct (IH (step p s e).1) as [IHle IHall].
    destruct (step_rows p s e) as [Hle Hall]. unfold insertedRows in *.
    split.
    + unfold submits in *. simpl. destruct e; simpl in *; lia.
    + split; [|done]. eapply Forall_impl; [exact Hall|].
      intros row (H1 & H2 & H3). rewrite H2, H3.
      repeat (split; [done|]). split; apply orNull_not_empty.
Qed.

(** X9: success is final: once the success flag is set and a form is
    loaded, whatever events follow, the flag stays set and the view stays a
    success panel. *)
Theorem success_is_final (p : props) (s : state) (es : list event) :
  isSuccess s = true →
  is_Some (form s) →
  isSuccess (run p s es).1 = true
  ∧ ∃ message, render (run p s es).1 = SuccessPanel message.
Proof.
  revert s. induction es as [|e es IH]; intros s Hs Hf.
  - simpl. split; [done|]. destruct Hf as [f Hf]. unfold render.
    rewrite Hf, Hs. eauto.
  - rewrite run_cons. cbn [fst]. apply IH.
    + by apply step_keeps_success.
    + by apply step_keeps_form.
Qed.

(** X10: a loaded form is never unloaded: whatever events follow, the form
    definition stays in the state, so the component never goes back to
    rendering nothing, and whenever rendering does not throw the view offers
    a button that closes. *)
Theorem loaded_form_stays_closable (p : props) (s : state) (es : list event) :
  is_Some (form s) →
  is_Some (form (run p s es).1)
  ∧ render (run p s es).1 ≠ Nothing
  ∧ (render (run p s es).1 ≠ Crash → closeButtons (render (run p s es).1) ≠ []).
Proof.
  revert s. induction es as [|e es IH]; intros s Hf.
  - simpl. split; [done|]. destruct Hf as [f Hf]. unfold render. rewrite Hf.
    destruct (isSuccess s); [done|]. by destruct (mapM _ _).
  - rewrite run_cons. cbn [fst]. apply IH. by apply step_keeps_form.
Qed.

Lemma allowed_submit_idle x :
  allowed x EvSubmit = true → isSubmitting (now x) = false.
Proof.
  simpl. unfold submitEnabled, render.
  destruct (form (now x)); [|discriminate].
  destruct (isSuccess (now x)); [discriminate|].
  destruct (mapM _ _); [|discriminate].
  by intros ?%negb_true_iff.
Qed.

Lemma advance_keeps_bound p x e x1 :
  (inflight x ≤ if isSubmitting (now x) then 1 else 0)%nat →
  advance p x e = Some x1 →
  (inflight x1 ≤ if isSubmitting (now x1) then 1 else 0)%nat.
Proof.
  intros Hinv. unfold advance.
  destruct (allowed x e) eqn:Hal; [|discriminate].
  destruct e as [fr fsr|k v| |err|].
  - intros [= <-]. simpl.
    unfold loadFormSettled. destruct fr, fsr; simpl; lia.
  - intros [= <-]. simpl.
    unfold handleFieldChange. destruct (truthyText _); simpl; lia.
  - apply allowed_submit_idle in Hal. rewrite Hal in Hinv. simpl.
    destruct (handleSubmit_cases p (now x))
      as [[_ ->]|[(_ & _ & ->)|(o & _ & _ & ->)]];
      intros [= <-]; simpl; rewrite ?Hal; lia.
  - simpl in Hal. apply bool_decide_eq_true in Hal.
    intros [= <-]. simpl. unfold insertSettled.
    destruct (isSubmitting (now x)); [|lia].
    destruct err; simpl; lia.
  - intros [= <-]. simpl. lia.
Qed.

Lemma advance_keeps_count p x e x1 :
  inflight x = (if isSubmitting (now x) then 1 else 0)%nat →
  labelsPlain (fields (now x)) →
  loadsPlain e →
  advance p x e = Some x1 →
  inflight x1 = (if isSubmitting (now x1) then 1 else 0)%nat
  ∧ labelsPlain (fields (now x1)).
Proof.
  intros Hinv Hl He. unfold advance.
  destruct (allowed x e) eqn:Hal; [|discriminate].
  destruct e as [fr fsr|k v| |err|].
  - intros [= <-]. simpl. rewrite Hinv.
    unfold loadFormSettled. destruct fr, fsr; simpl in *; (split; [lia|done]).
  - intros [= <-]. simpl. rewrite Hinv.
    destruct (handleFieldChange_frame k v (now x)) as (_ & -> & -> & _).
    split; [lia|done].
  - apply allowed_submit_idle in Hal. rewrite Hal in Hinv. simpl.
    destruct (responsesOf_defined (fields (now x)) (formData (now x)) Hl)
      as [o' Ho'].
    destruct (handleSubmit_cases p (now x))
      as [[_ ->]|[(_ & Hr & _)|(o & _ & _ & ->)]];
      [| congruence |]; intros [= <-]; simpl; rewrite ?Hal; (split; [lia|done]).
  - simpl in Hal. apply bool_decide_eq_true in Hal.
    intros [= <-]. simpl. unfold insertSettled.
    destruct (isSubmitting (now x)); [|lia].
    destruct err; simpl; (split; [lia|done]).
  - intros [= <-]. simpl. split; [lia|done].
Qed.

(** X11: never two inserts in flight.  When a submit can only come from the
    enabled submit button of the rendered form, and an insert settles only if
    one is in flight, then over any run of events at most one insert is in
    flight, and none unless the busy flag is set.  As long as no field is
    labelled [__proto__], so that building the record cannot throw, the
    number in flight is exactly one while the busy flag is set. *)
Theorem one_insert_in_flight
    (p : props) (x x1 : session) (es : list event) :
  (inflight x ≤ if isSubmitting (now x) then 1 else 0)%nat →
  play p x es = Some x1 →
  (inflight x1 ≤ if isSubmitting (now x1) then 1 else 0)%nat
  ∧ (inflight x1 ≤ 1)%nat
  ∧ (inflight x = (if isSubmitting (now x) then 1 else 0)%nat →
     labelsPlain (fields (now x)) →
     Forall loadsPlain es →
     inflight x1 = (if isSubmitting (now x1) then 1 else 0)%nat).
Proof.
  revert x. induction es as [|e es IH]; intros x Hinv Hplay; simpl in Hplay.
  - injection Hplay as <-. split; [done|]. split; [|done].
    destruct (isSubmitting (now x)); lia.
  - destruct (advance p x e) as [x2|] eqn:Hadv; [|discriminate].
    simpl in Hplay.
    destruct (IH x2 (advance_keeps_bound p x e x2 Hinv Hadv) Hplay)
      as (H1 & H2 & H3).
    split; [done|]. split; [done|].
    intros Heq Hl Hall. apply Forall_cons in Hall as [He Hall].
    destruct (advance_keeps_count p x e x2 Heq Hl He Hadv) as [Heq2 Hl2].
    by apply H3.
Qed.

(** X12: while the insert of a valid submit is in flight, whatever fields
    are edited in the meantime, the busy flag stays set and the view, unless
    rendering throws, is the form with the submit button disabled and
    reading "Submitting..." and with both close buttons.  The draft is the
    one submitted until it is edited.  With field identities that are no
    names of members of [Object.prototype] rendering does not throw and no
    error line shows. *)
Theorem valid_submit_shows_busy
    (p : props) (s s1 : state) (row : submission) (f : RegistrationForm.t)
    (edits : list (list N * value)) :
  form s = Some f →
  isSuccess s = false →
  handleSubmit p s = (s1, [Insert row]) →
  formData s1 = formData s
  ∧ isSubmitting (changes edits s1) = true
  ∧ (render (changes edits s1) = Crash
     ∨ ∃ rows,
         render (changes edits s1)
         = FormPanel (RegistrationForm.name f) rows true (str "Submitting...")
         ∧ submitEnabled (render (changes edits s1)) = false
         ∧ closeButtons (render (changes edits s1)) = [HeaderX; Cancel])
  ∧ (Forall plainKey (map FormField.id (fields s)) →
     ∃ rows,
       render (changes edits s1)
       = FormPanel (RegistrationForm.name f) rows true (str "Submitting...")
       ∧ Forall (λ r, row_error r = None) rows).
Proof.
  intros Hf Hs Hsub.
  destruct (handleSubmit_cases p s)
    as [[_ Heq]|[(_ & _ & Heq)|(o & He & Hr & Heq)]];
    rewrite Heq in Hsub; try discriminate.
  injection Hsub as <- _.
  set (s1 := setIsSubmitting true (setErrors ∅ s)).
  destruct (changes_frame edits s1) as (Hform & Hfields & Hbusy & Hflag).
  simpl in Hform, Hfields, Hbusy, Hflag.
  split; [done|]. split; [done|].
  assert (∀ rows, mapM (renderRow (changes edits s1)) (fields s) = Some rows →
            render (changes edits s1)
            = FormPanel (RegistrationForm.name f) rows true (str "Submitting..."))
    as Hview.
  { intros rows Hrows. unfold render.
    by rewrite Hform, Hf, Hflag, Hs, Hfields, Hrows, Hbusy. }
  split.
  - destruct (mapM (renderRow (changes edits s1)) (fields s)) as [rows|] eqn:Hrows.
    + right. exists rows. rewrite (Hview rows eq_refl). done.
    + left. unfold render. by rewrite Hform, Hf, Hflag, Hs, Hfields, Hrows.
  - intros Hplain.
    destruct (renderRows_plain (changes edits s1) (fields s) Hplain)
      as (rows & Hrows & Hrel).
    exists rows. split; [by apply Hview|].
    assert (∀ k m, errors (changes edits s1) !! k = Some m → m = []) as Hblank.
    { apply changes_errors_blank. intros k m. simpl. by rewrite lookup_empty. }
    apply Forall_forall. intros r Hr'.
    apply list_elem_of_lookup in Hr' as [i Hi].
    destruct (Forall2_lookup_r _ _ _ _ _ Hrel Hi) as (g & Hg & ->).
    apply blank_errors_hidden; [done|].
    rewrite Forall_forall in Hplain. apply Hplain.
    apply list_elem_of_fmap_2. by eapply list_elem_of_lookup_2.
Qed.

(** X13: when the insert of a valid submit settles without error, whatever
    fields were edited in the meantime, the view is the success panel with
    the success message of the form and its one close button; the draft
    stays in the state as it was last edited. *)
Theorem settled_insert_shows_success
    (p : props) (s s1 : state) (row : submission) (f : RegistrationForm.t)
    (edits : list (list N * value)) :
  form s = Some f →
  handleSubmit p s = (s1, [Insert row]) →
  render (insertSettled None (changes edits s1))
    = SuccessPanel (RegistrationForm.success_message f)
  ∧ closeButtons (render (insertSettled None (changes edits s1)))
    = [SuccessClose]
  ∧ formData (insertSettled None (changes edits s1))
    = formData (changes edits s1).
Proof.
  intros Hf Hsub.
  destruct (handleSubmit_cases p s)
    as [[_ Heq]|[(_ & _ & Heq)|(o & He & Hr & Heq)]];
    rewrite Heq in Hsub; try discriminate.
  injection Hsub as <- _.
  destruct (changes_frame edits (setIsSubmitting true (setErrors ∅ s)))
    as (Hform & _).
  simpl in Hform.
  unfold render, insertSettled.
  cbn [form isSuccess setIsSuccess setIsSubmitting formData].
  rewrite Hform, Hf. done.
Qed.

(** X18: a rejected submit can be repeated: submitting again without
    touching the draft gives the same state, the same errors, and again no
    call. *)
Theorem rejected_submit_repeats (p : props) (s : state) :
  (handleSubmit p s).2 = [] →
  handleSubmit p (handleSubmit p s).1 = handleSubmit p s.
Proof.
  intros Hno.
  destruct (handleSubmit_cases p s)
    as [[Hne Heq]|[(He & Hr & Heq)|(o & He & Hr & Heq)]];
    rewrite Heq in Hno |- *; try discriminate; cbn [fst].
  - rewrite handleSubmit_invalid; [done|]. exact Hne.
  - rewrite handleSubmit_thrown; [done|exact He|exact Hr].
Qed.

End Lifecycle.

(** ** Beyond the claims: the controls and the shape of the draft *)

Section ControlFacts.
Import Js Regex Modal Rules Controls.

Implicit Types (f g : FormField.t) (fs : list FormField.t) (u : input).

Lemma ids_inj fs f g :
  NoDup (map FormField.id fs) → f ∈ fs → g ∈ fs →
  FormField.id f = FormField.id g → f = g.
Proof.
  induction fs as [|h fs IH]; intros Hnd Hf Hg Heq.
  { by apply elem_of_nil in Hf. }
  simpl in Hnd. apply NoDup_cons in Hnd as [Hh Hnd].
  apply elem_of_cons in Hf as [->|Hf]; apply elem_of_cons in Hg as [->|Hg].
  - done.
  - destruct Hh. rewrite Heq. by apply list_elem_of_fmap_2.
  - destruct Hh. rewrite <- Heq. by apply list_elem_of_fmap_2.
  - by apply IH.
Qed.

Lemma offered_inv s u :
  offered s u = true →
  (∃ n rows d l, render s = FormPanel n rows d l)
  ∧ inputField u ∈ fields s
  ∧ match u with
    | Typed f _ => renderField f ≠ Checkbox
    | Chosen f _ => renderField f ≠ Checkbox
    | Picked f _ => renderField f ≠ Checkbox
    | Toggled f o => renderField f = Checkbox ∧ o ∈ FormField.options f
    end.
Proof.
  unfold offered. destruct (render s) as [|?|n rows d l|]; try discriminate.
  intros [Hin Hc]%andb_true_iff. apply bool_decide_eq_true in Hin.
  split; [by eauto|]. split; [done|].
  destruct u as [f t|f c|f o|f o]; simpl in *;
    destruct (renderField f); try discriminate; try done.
  apply bool_decide_eq_true in Hc. done.
Qed.

(** A rendered form has evaluated [includes] for every box of every
    checkbox group in it. *)
Lemma rendered_boxes s f o :
  (∃ n rows d l, render s = FormPanel n rows d l) →
  f ∈ fields s → renderField f = Checkbox → o ∈ FormField.options f →
  is_Some (includes (currentOf (get (formData s) (FormField.id f))) o).
Proof.
  intros (n & rows & d & l & Hr) Hf Hc Ho. unfold render in Hr.
  destruct (form s); [|discriminate]. destruct (isSuccess s); [discriminate|].
  destruct (mapM (renderRow s) (fields s)) as [rows'|] eqn:Hrows; [|discriminate].
  assert (is_Some (renderRow s f)) as [r Hrow].
  { assert (is_Some (mapM (renderRow s) (fields s))) as Hsome by by eexists.
    apply mapM_is_Some in Hsome. rewrite Forall_forall in Hsome.
    apply (Hsome f Hf). }
  unfold renderRow in Hrow. rewrite Hc in Hrow.
  destruct (renderBoxes s f) as [boxes|] eqn:Hboxes; [|discriminate].
  assert (is_Some (renderBoxes s f)) as Hsome by by eexists.
  unfold renderBoxes in Hsome. apply mapM_is_Some in Hsome.
  rewrite Forall_forall in Hsome. specialize (Hsome o Ho). simpl in Hsome.
  destruct (includes _ o); [by eexists|]. by destruct Hsome.
Qed.

Lemma fits_items f (fd : gmap (list N) value) :
  entryFits f (fd !! FormField.id f) → renderField f = Checkbox →
  is_Some (includes (currentOf (get fd (FormField.id f))) (FormField.id f)) →
  ∃ items, currentOf (get fd (FormField.id f)) = Items items ∧ NoDup items
           ∧ ∀ o, o ∈ items → o ∈ FormField.options f.
Proof.
  intros Hfit Hc Hinc. unfold get in *.
  destruct (fd !! FormField.id f) as [[t|items]|]; simpl in *.
  - done.
  - destruct Hfit as (_ & Hnd & Hsub). eauto.
  - case_bool_decide; simpl in *; [by destruct Hinc|].
    exists []. split; [done|]. split; [constructor|].
    intros o Ho. by apply elem_of_nil in Ho.
Qed.

Lemma includes_any c o o1 : is_Some (includes c o) → is_Some (includes c o1).
Proof. destruct c; simpl; eauto. Qed.

Lemma offered_items s f o :
  draftFits s → offered s (Toggled f o) = true →
  ∃ items, currentOf (get (formData s) (FormField.id f)) = Items items
           ∧ NoDup items ∧ (∀ o1, o1 ∈ items → o1 ∈ FormField.options f).
Proof.
  intros Hfit Hoff. apply offered_inv in Hoff as (Hr & Hin & Hc & Ho).
  simpl in Hin. apply fits_items; [by apply Hfit|done|].
  eapply includes_any. by eapply rendered_boxes.
Qed.

(** X14: every input on a control the view offers is handled: in a state
    whose draft entries have the shape their controls write, the checkbox
    handler never meets a string where it expects a list. *)
Theorem offered_input_is_handled (s : state) (u : input) :
  draftFits s →
  offered s u = true →
  is_Some (fire u s).
Proof.
  intros Hfit Hoff.
  destruct u as [f t|f c|f o|f o]; simpl; try by eexists.
  destruct (offered_items s f o Hfit Hoff) as (items & Hitems & _).
  unfold checkboxChange. rewrite Hitems. simpl. by eexists.
Qed.

Lemma fire_fits s u s1 :
  NoDup (map FormField.id (fields s)) →
  draftFits s →
  offered s u = true →
  fire u s = Some s1 →
  draftFits s1 ∧ fields s1 = fields s.
Proof.
  intros Hnd Hfit Hoff Hfire.
  pose proof (offered_inv s u Hoff) as (_ & Hin & Hc).
  assert (∃ v, formData s1 = <[FormField.id (inputField u) := v]> (formData s)
               ∧ fields s1 = fields s
               ∧ entryFits (inputField u) (Some v)) as (v & Hd & Hf & Hv).
  { destruct u as [f t|f c|f o|f o]; simpl in *.
    - injection Hfire as <-. exists (VStr t). unfold textChange.
      by destruct (handleFieldChange_frame (FormField.id f) (VStr t) s)
        as (_ & -> & _ & _ & ->).
    - injection Hfire as <-. exists (VStr c). unfold textChange.
      by destruct (handleFieldChange_frame (FormField.id f) (VStr c) s)
        as (_ & -> & _ & _ & ->).
    - injection Hfire as <-. exists (VStr o). unfold radioChange.
      by destruct (handleFieldChange_frame (FormField.id f) (VStr o) s)
        as (_ & -> & _ & _ & ->).
    - destruct Hc as [Hc Ho].
      destruct (offered_items s f o Hfit Hoff) as (items & Hitems & Hndi & Hsub).
      unfold checkboxChange in Hfire. rewrite Hitems in Hfire.
      simpl in Hfire. injection Hfire as <-.
      eexists. destruct (handleFieldChange_frame (FormField.id f)
        (VArr (if negb (bool_decide (o ∈ items)) then items ++ [o]
               else filter (λ v, v ≠ o) items)) s) as (_ & -> & _ & _ & ->).
      split; [done|]. split; [done|]. simpl. split; [done|].
      case_bool_decide as Hmem; simpl.
      + split; [by apply NoDup_filter|].
        intros o' [_ Ho']%list_elem_of_filter. by apply Hsub.
      + split.
        * apply NoDup_app. split; [done|]. split; [|apply NoDup_singleton].
          intros o' Ho' ->%list_elem_of_singleton. done.
        * intros o' [Ho'| ->%list_elem_of_singleton]%elem_of_app; [by apply Hsub|done]. }
  split; [|done]. intros g Hg. rewrite Hf in Hg. rewrite Hd.
  destruct (decide (FormField.id (inputField u) = FormField.id g)) as [Heq|Hne].
  - rewrite (ids_inj _ _ _ Hnd Hin Hg Heq) in *. by rewrite lookup_insert_eq.
  - rewrite lookup_insert_ne by done. by apply Hfit.
Qed.

Lemma fire_frame s u s1 :
  fire u s = Some s1 →
  form s1 = form s ∧ isSubmitting s1 = isSubmitting s ∧ isSuccess s1 = isSuccess s.
Proof.
  destruct u as [f t|f c|f o|f o]; simpl; unfold textChange, radioChange.
  - intros [= <-]. by destruct (handleFieldChange_frame (FormField.id f) (VStr t) s)
      as (-> & _ & -> & -> & _).
  - intros [= <-]. by destruct (handleFieldChange_frame (FormField.id f) (VStr c) s)
      as (-> & _ & -> & -> & _).
  - intros [= <-]. by destruct (handleFieldChange_frame (FormField.id f) (VStr o) s)
      as (-> & _ & -> & -> & _).
  - unfold checkboxChange.
    destruct (currentOf _) as [items|text|]; simpl; [| |discriminate].
    + intros [= <-]. by destruct (handleFieldChange_frame (FormField.id f)
        (VArr (if negb (bool_decide (o ∈ items)) then items ++ [o]
               else filter (λ v, v ≠ o) items)) s) as (-> & _ & -> & -> & _).
    + destruct (negb (isInfix o text)); [|discriminate].
      intros [= <-]. by destruct (handleFieldChange_frame (FormField.id f)
        (VArr (codePoints text ++ [o])) s) as (-> & _ & -> & -> & _).
Qed.

Lemma inputs_fit us s s1 :
  NoDup (map FormField.id (fields s)) →
  draftFits s →
  inputs us s = Some s1 →
  draftFits s1 ∧ fields s1 = fields s.
Proof.
  revert s. induction us as [|u us IH]; intros s Hnd Hfit Hrun; simpl in Hrun.
  - by injection Hrun as <-.
  - destruct (offered s u) eqn:Hoff; [|discriminate].
    destruct (fire u s) as [s2|] eqn:Hfire; [|discriminate]. simpl in Hrun.
    destruct (fire_fits s u s2 Hnd Hfit Hoff Hfire) as [Hfit2 Hf2].
    destruct (IH s2) as [Hfit1 Hf1]; [by rewrite Hf2|done|done|].
    split; [done|]. by rewrite Hf1.
Qed.

(** X15: the controls keep the draft in shape and touch nothing but the
    draft and the error entries.  With field identities unique, after any
    run of inputs on offered controls the entry of every field but a checkbox
    group is absent or a string, and the entry of a checkbox group is absent
    or a duplicate-free list of options of that group; the field list, the
    form definition and the busy and success flags are as before. *)
Theorem controls_keep_draft_fitting (us : list input) (s s1 : state) :
  NoDup (map FormField.id (fields s)) →
  draftFits s →
  inputs us s = Some s1 →
  draftFits s1
  ∧ fields s1 = fields s
  ∧ form s1 = form s
  ∧ isSubmitting s1 = isSubmitting s
  ∧ isSuccess s1 = isSuccess s.
Proof.
  intros Hnd Hfit Hrun.
  destruct (inputs_fit us s s1 Hnd Hfit Hrun) as [Hfit1 Hf1].
  split; [done|]. split; [done|]. clear Hnd Hfit Hfit1 Hf1.
  revert s Hrun. induction us as [|u us IH]; intros s Hrun; simpl in Hrun.
  - by injection Hrun as <-.
  - destruct (offered s u); [|discriminate].
    destruct (fire u s) as [s2|] eqn:Hfire; [|discriminate]. simpl in Hrun.
    destruct (IH s2 Hrun) as (-> & -> & ->). by apply (fire_frame s u s2).
Qed.

Lemma pattern_field_is_input f :
  FormField.field_type f = str "email" ∨ FormField.field_type f = str "phone" →
  renderField f ≠ Checkbox.
Proof.
  unfold renderField. intros [-> | ->];
    rewrite !bool_decide_eq_false_2 by discriminate; discriminate.
Qed.

(** X16: what the email and phone patterns are run on is the text the user
    typed.  Starting from an empty draft, with field identities unique, after
    any run of inputs on offered controls: for an email or phone field whose
    identity is not the name of a member of [Object.prototype], whenever the
    code finds [formData[field.id]] truthy, the entry is a non-empty string
    written by the field's input, and that string is what the pattern
    sees. *)
Theorem pattern_sees_typed_text
    (us : list input) (s s1 : state) (f : FormField.t) :
  NoDup (map FormField.id (fields s)) →
  formData s = ∅ →
  inputs us s = Some s1 →
  f ∈ fields s →
  FormField.field_type f = str "email" ∨ FormField.field_type f = str "phone" →
  plainKey (FormField.id f) →
  truthyGot (get (formData s1) (FormField.id f)) = true →
  ∃ text, text ≠ []
          ∧ formData s1 !! FormField.id f = Some (VStr text)
          ∧ toStringGot (get (formData s1) (FormField.id f)) = text.
Proof.
  intros Hnd Hempty Hrun Hin Hty Hplain Hv.
  assert (draftFits s) as Hfit.
  { intros g _. by rewrite Hempty, lookup_empty. }
  destruct (inputs_fit us s s1 Hnd Hfit Hrun) as [Hfit1 Hf1].
  rewrite <- Hf1 in Hin. specialize (Hfit1 f Hin).
  apply pattern_field_is_input in Hty.
  destruct (formData s1 !! FormField.id f) as [[text|items]|] eqn:Hentry;
    simpl in *.
  - rewrite (get_own _ _ _ Hentry) in Hv |- *. exists text. by destruct text.
  - by destruct Hfit1 as [? _].
  - by rewrite (get_plain _ _ Hplain Hentry) in Hv.
Qed.

Lemma filter_other_notin (items : list (list N)) o :
  o ∉ items → filter (λ v, v ≠ o) items = items.
Proof.
  induction items as [|x items IH]; intros Ho; [done|].
  apply not_elem_of_cons in Ho as [Hne Ho].
  rewrite filter_cons_True by done. by rewrite IH.
Qed.

Lemma filter_other_perm (items : list (list N)) o :
  NoDup items → o ∈ items → filter (λ v, v ≠ o) items ++ [o] ≡ₚ items.
Proof.
  induction items as [|x items IH]; intros Hnd Ho.
  { by apply elem_of_nil in Ho. }
  apply NoDup_cons in Hnd as [Hx Hnd].
  destruct (decide (x = o)) as [->|Hne].
  - rewrite filter_cons_False by (intros H; by apply H).
    rewrite filter_other_notin by done.
    symmetry. apply Permutation_cons_append.
  - rewrite filter_cons_True by done.
    apply elem_of_cons in Ho as [->|Ho]; [done|].
    simpl. constructor. by apply IH.
Qed.

(** X17: clicking the same checkbox twice keeps the selection.  When what
    the group reads under the field's identity is a duplicate-free list (an
    own list, or nothing under an identity that is no member name of
    [Object.prototype], which reads as the empty list), both clicks are
    handled and the entry is then a list with the same options as before (in
    the same order when the box was unticked to begin with; with the option
    moved to the end when it was ticked), and no other entry of the draft
    changes.  From an absent entry the result is the empty list, not
    absence. *)
Theorem toggle_twice_keeps_selection
    (s : state) (f : FormField.t) (o : list N) (items : list (list N)) :
  currentOf (get (formData s) (FormField.id f)) = Items items →
  NoDup items →
  ∃ s2 items2,
    fire (Toggled f o) s ≫= fire (Toggled f o) = Some s2
    ∧ formData s2 !! FormField.id f = Some (VArr items2)
    ∧ items2 ≡ₚ items
    ∧ (o ∉ items → items2 = items)
    ∧ (∀ k, k ≠ FormField.id f → formData s2 !! k = formData s !! k).
Proof.
  intros Hitems Hnd. simpl.
  unfold checkboxChange at 1. rewrite Hitems. simpl.
  set (once := if negb (bool_decide (o ∈ items)) then items ++ [o]
               else filter (λ v, v ≠ o) items).
  destruct (handleFieldChange_frame (FormField.id f) (VArr once) s)
    as (_ & _ & _ & _ & Hd1).
  assert (currentOf (get (formData (handleFieldChange (FormField.id f) (VArr once) s))
                       (FormField.id f)) = Items once) as Hcur.
  { rewrite Hd1. unfold get. by rewrite lookup_insert_eq. }
  unfold checkboxChange. rewrite Hcur. simpl.
  set (twice := if negb (bool_decide (o ∈ once)) then once ++ [o]
                else filter (λ v, v ≠ o) once).
  destruct (handleFieldChange_frame (FormField.id f) (VArr twice)
              (handleFieldChange (FormField.id f) (VArr once) s))
    as (_ & _ & _ & _ & Hd2).
  eexists _, twice. split; [done|]. rewrite Hd2, Hd1.
  split; [by rewrite lookup_insert_eq|].
  assert (twice ≡ₚ items ∧ (o ∉ items → twice = items)) as [Hperm Hsame].
  { subst twice once. destruct (decide (o ∈ items)) as [Hin|Hout].
    - rewrite (bool_decide_eq_true_2 (o ∈ items)) by done. simpl.
      rewrite bool_decide_eq_false_2.
      2:{ intros [H _]%list_elem_of_filter. by apply H. }
      simpl. split; [by apply filter_other_perm|done].
    - rewrite (bool_decide_eq_false_2 (o ∈ items)) by done. simpl.
      rewrite bool_decide_eq_true_2.
      2:{ apply elem_of_app. right. by left. }
      simpl. rewrite filter_app, filter_other_notin by done.
      rewrite filter_cons_False by (intros H; by apply H).
      rewrite filter_nil, app_nil_r. done. }
  split; [done|]. split; [done|].
  intros k Hk. by rewrite !lookup_insert_ne.
Qed.

End ControlFacts.

(** ** Beyond the claims: at concrete inputs *)

Section Trials.
Import Js Regex Modal Rules Controls Sample Trial.

Local Ltac decided := apply (bool_decide_unpack _); vm_compute; exact I.

(** X3 on the "Name is required" error of the empty form. *)
Lemma recorded_errors_are_shown_witness :
  errors (handleSubmit modalProps (ready [nameField; emailField] ∅ ∅)).1
    !! str "fld-name" = Some (str "Name is required")
  ∧ errorLine
      (errors (handleSubmit modalProps (ready [nameField; emailField] ∅ ∅)).1)
      (str "fld-name") = Some (str "Name is required").
Proof.
  assert (errors (handleSubmit modalProps (ready [nameField; emailField] ∅ ∅)).1
            !! str "fld-name" = Some (str "Name is required")) as H.
  { vm_compute. reflexivity. }
  split; [exact H|].
  exact (proj2 (proj2 (recorded_errors_are_shown modalProps
                         (ready [nameField; emailField] ∅ ∅) _ _ H))).
Defined.

(** X4 on a draft with a left-over entry. *)
Lemma submit_reads_listed_entries_only_witness :
  (handleSubmit modalProps (setFormData staleDraft adaReady)).2
  = (handleSubmit modalProps adaReady).2.
Proof.
  refine (proj2 (submit_reads_listed_entries_only modalProps adaReady staleDraft _)).
  intros f Hf. simpl in Hf.
  apply elem_of_cons in Hf as [->|Hf]; [vm_compute; reflexivity|].
  apply elem_of_cons in Hf as [->|Hf]; [vm_compute; reflexivity|].
  by apply elem_of_nil in Hf.
Defined.

(** X5 on a required name of spaces. *)
Lemma blank_value_passes_witness :
  FormField.is_required nameField = true
  ∧ errors (handleSubmit modalProps blankName).1 !! FormField.id nameField = None.
Proof.
  split; [reflexivity|].
  refine (blank_value_passes modalProps blankName nameField [32; 32; 160] _ _ _ _ _ _).
  - decided.
  - decided.
  - discriminate.
  - vm_compute. reflexivity.
  - discriminate.
  - repeat constructor.
Defined.

(** X6 on "ada@example.com". *)
Lemma accepted_email_facts_witness :
  length (filter (λ c, c = 64) (str "ada@example.com")) = 1%nat
  ∧ (5 ≤ length (str "ada@example.com"))%nat.
Proof.
  destruct (accepted_email_facts (str "ada@example.com")) as (H1 & _ & _ & H4).
  - vm_compute. reflexivity.
  - exact (conj H1 H4).
Defined.

(** X7 on the two fields labelled "Phone": one key for two fields. *)
Lemma record_size_counts_labels_witness :
  (size (responses (rowFor {[ str "Phone" := VStr (str "12345") ]}))
   ≤ length (fields twoPhones))%nat.
Proof.
  refine (proj1 (record_size_counts_labels modalProps twoPhones
                   (rowFor {[ str "Phone" := VStr (str "12345") ]}) _)).
  vm_compute. reflexivity.
Defined.

(** X9 on the success panel. *)
Lemma success_is_final_witness :
  isSuccess (run modalProps succeeded afterwards).1 = true.
Proof.
  refine (proj1 (success_is_final modalProps succeeded afterwards _ _)).
  - reflexivity.
  - by eexists.
Defined.

(** X10 on a submit that fails and is retried. *)
Lemma loaded_form_stays_closable_witness :
  render (run modalProps adaReady retry).1 ≠ Nothing.
Proof.
  refine (proj1 (proj2 (loaded_form_stays_closable modalProps adaReady retry _))).
  by eexists.
Defined.

(** X11 on a submit that fails and is retried. *)
Lemma one_insert_in_flight_witness :
  ∃ x1, play modalProps {| now := adaReady; inflight := 0 |} retry = Some x1
        ∧ (inflight x1 ≤ 1)%nat.
Proof.
  eexists. split; [vm_compute; reflexivity|].
  refine (proj1 (proj2 (one_insert_in_flight modalProps
                          {| now := adaReady; inflight := 0 |} _ retry _ _))).
  - simpl. lia.
  - vm_compute. reflexivity.
Defined.

(** X12 on the filled-in form, one field edited while in flight. *)
Lemma valid_submit_shows_busy_witness :
  isSubmitting
    (changes [(str "fld-name", VStr (str "Ada L."))]
       (handleSubmit modalProps adaReady).1) = true.
Proof.
  refine (proj1 (proj2 (valid_submit_shows_busy modalProps adaReady
                   (handleSubmit modalProps adaReady).1 adaRow retreat
                   [(str "fld-name", VStr (str "Ada L."))] _ _ _))).
  - reflexivity.
  - reflexivity.
  - vm_compute. reflexivity.
Defined.

(** X13 on the filled-in form, one field edited while in flight. *)
Lemma settled_insert_shows_success_witness :
  render (insertSettled None
            (changes [(str "fld-name", VStr (str "Ada L."))]
               (handleSubmit modalProps adaReady).1))
  = SuccessPanel (RegistrationForm.success_message retreat).
Proof.
  refine (proj1 (settled_insert_shows_success modalProps adaReady
                   (handleSubmit modalProps adaReady).1 adaRow retreat
                   [(str "fld-name", VStr (str "Ada L."))] _ _)).
  - reflexivity.
  - vm_compute. reflexivity.
Defined.

(** X14 on the first click on a checkbox of the blank form. *)
Lemma offered_input_is_handled_witness :
  is_Some (fire (Toggled sessionsField (str "Morning")) blankForm).
Proof.
  apply offered_input_is_handled.
  - intros f _. exact I.
  - vm_compute. reflexivity.
Defined.

(** X15 on the run of inputs [fillIn]. *)
Lemma controls_keep_draft_fitting_witness :
  inputs fillIn blankForm = Some filledIn ∧ draftFits filledIn.
Proof.
  assert (inputs fillIn blankForm = Some filledIn) as Hrun.
  { vm_compute. reflexivity. }
  split; [exact Hrun|].
  refine (proj1 (controls_keep_draft_fitting fillIn blankForm filledIn _ _ Hrun)).
  - decided.
  - intros f _. exact I.
Defined.

(** X16 on the email address typed in [fillIn]. *)
Lemma pattern_sees_typed_text_witness :
  ∃ text, text ≠ []
          ∧ formData filledIn !! FormField.id emailField = Some (VStr text)
          ∧ toStringGot (get (formData filledIn) (FormField.id emailField)) = text.
Proof.
  apply (pattern_sees_typed_text fillIn blankForm filledIn emailField).
  - decided.
  - reflexivity.
  - vm_compute. reflexivity.
  - decided.
  - left. reflexivity.
  - decided.
  - vm_compute. reflexivity.
Defined.

(** X17 on a ticked box clicked twice: "Morning" moves behind "Evening". *)
Lemma toggle_twice_keeps_selection_witness :
  ∃ s2 items2,
    fire (Toggled sessionsField (str "Morning")) sessionsTicked
      ≫= fire (Toggled sessionsField (str "Morning")) = Some s2
    ∧ formData s2 !! FormField.id sessionsField = Some (VArr items2)
    ∧ items2 ≡ₚ [str "Morning"; str "Evening"]
    ∧ (str "Morning" ∉ [str "Morning"; str "Evening"]
       → items2 = [str "Morning"; str "Evening"])
    ∧ (∀ k, k ≠ FormField.id sessionsField
            → formData s2 !! k = formData sessionsTicked !! k).
Proof.
  apply (toggle_twice_keeps_selection sessionsTicked sessionsField
           (str "Morning") [str "Morning"; str "Evening"]).
  - vm_compute. reflexivity.
  - decided.
Defined.

(** The busy flag can be set with no insert in flight: on the form whose
    record cannot be built, the submit sets the flag and throws before the
    insert, which is why the exact count of inserts in flight needs its
    condition on the labels. *)
Example busy_flag_can_outlive_insert :
  submitEnabled (render throwing) = true
  ∧ ∃ x1, play modalProps {| now := throwing; inflight := 0 |} [EvSubmit] = Some x1
          ∧ isSubmitting (now x1) = true
          ∧ inflight x1 = 0%nat
          ∧ submitEnabled (render (now x1)) = false.
Proof.
  split; [vm_compute; reflexivity|].
  eexists. split; [vm_compute; reflexivity|]. repeat split.
Qed.

(** A checkbox group whose identity is [constructor] cannot be rendered
    while the draft has no entry for it: [includes] is called on the
    inherited function, so none of its boxes is ever offered. *)
Example member_checkbox_breaks_render :
  render (ready [ctorSessions] ∅ ∅) = Crash
  ∧ offered (ready [ctorSessions] ∅ ∅) (Toggled ctorSessions (str "Morning")) = false.
Proof. split; vm_compute; reflexivity. Qed.

(** Two fields, one of them labelled [__proto__]: the record has one key. *)
Example proto_label_loses_entry :
  (handleSubmit modalProps
     (ready [nameField; protoNote]
        {[ str "fld-name" := VStr (str "Ada");
           str "fld-note" := VStr (str "hello") ]} ∅)).2
  = [Insert (rowFor {[ str "Name" := VStr (str "Ada") ]})].
Proof. vm_compute. reflexivity. Qed.

(** X18 on the empty form submitted twice. *)
Lemma rejected_submit_repeats_witness :
  handleSubmit modalProps
    (handleSubmit modalProps (ready [nameField; emailField] ∅ ∅)).1
  = handleSubmit modalProps (ready [nameField; emailField] ∅ ∅).
Proof.
  apply (rejected_submit_repeats modalProps (ready [nameField; emailField] ∅ ∅)).
  vm_compute. reflexivity.
Defined.

End Trials.
